(** * Storefront theme scripts: cart drawer, product form, predictive search,
      collection filters.

    A shallow embedding of the browser-side controllers of the theme
    ([section-cart.js] with the cart and product-page scripts, the search
    modal component, the collection-page script) together with the
    properties the design document states about them.

    JavaScript strings are modelled as [string]; integers that the platform
    delivers in its JSON payloads (ids, prices in cents, quantities) as [Z];
    DOM elements as records of the attributes and text the scripts read or
    write, an element that [querySelector] may fail to find as an [option]. *)

From stdpp Require Import base list option strings pretty.
From Stdlib Require Import Ascii ZArith Lia.

Open Scope Z_scope.

(** ** JavaScript values and arrays *)

(** The values a JSON property holding an option name can take when it is
    read with [variant[`option${n}`]]: a missing property reads as
    [undefined], the platform writes [null] for an option the product does not
    have, and a string otherwise. *)
Inductive JSVal : Type :=
  | JUndefined
  | JNull
  | JStr (s : string).

#[global] Instance JSVal_eq_dec : EqDecision JSVal.
Proof. solve_decision. Defined.

(** [a === b] on these values. *)
Definition strict_eq (a b : JSVal) : bool := bool_decide (a = b).

(** Truthiness of a string: only the empty string is falsy. *)
Definition truthy (s : string) : bool := negb (bool_decide (s = "")).

(** [o || dflt] for a string-valued optional property [o]. *)
Definition or_default (o : option string) (dflt : string) : string :=
  match o with
  | Some s => if truthy s then s else dflt
  | None => dflt
  end.

(** [Array.prototype.every] on a dense array; the callback receives the
    element and its index. *)
Fixpoint every_from {A : Type} (f : A → nat → bool) (i : nat) (l : list A) : bool :=
  match l with
  | [] => true
  | x :: l' => f x i && every_from f (S i) l'
  end.

Definition every {A : Type} (f : A → nat → bool) (l : list A) : bool :=
  every_from f 0 l.

(** [Array.prototype.every] on an array that may have holes: a hole (an
    index never assigned) is skipped, the callback is not called for it. *)
Fixpoint every_sparse_from {A : Type} (f : A → nat → bool) (i : nat)
    (l : list (option A)) : bool :=
  match l with
  | [] => true
  | None :: l' => every_sparse_from f (S i) l'
  | Some x :: l' => f x i && every_sparse_from f (S i) l'
  end.

Definition every_sparse {A : Type} (f : A → nat → bool) (l : list (option A)) : bool :=
  every_sparse_from f 0 l.

(** [arr[i] = x] on a copy [arr] of a dense array: inside the array the slot
    is overwritten, past its end the array grows and the slots in between
    stay holes. *)
Definition array_set {A : Type} (l : list A) (i : nat) (x : A) : list (option A) :=
  if decide (i < length l)%nat
  then <[i := Some x]> (Some <$> l)
  else (Some <$> l) ++ replicate (i - length l) None ++ [Some x].

(** [(cents / 100).toFixed(2)] for a whole number of cents: the amount with
    two decimals. (The quotient is a double and [toFixed] rounds it: the
    text is exact for amounts below 2^46 cents, which the statements about
    money assume where they spell it out.) *)
Definition two_digits (n : Z) : string :=
  (if n <? 10 then "0" else "") +:+ pretty n.

Definition toFixed2 (cents : Z) : string :=
  let a := Z.abs cents in
  (if cents <? 0 then "-" else "") +:+ pretty (a / 100) +:+ "." +:+ two_digits (a mod 100).

(** The whole numbers a double holds exactly and prints in decimal: the
    safe integers and 2^53 itself. *)
Definition exact_number (n : Z) : Prop := - 2 ^ 53 ≤ n ≤ 2 ^ 53.

(** *** Strings

    A string is held in its UTF-8 encoding. *)

(** [s.length]: the number of UTF-16 code units, one for a character of up
    to three bytes and two for a character of four bytes. *)
Definition utf16_units (c : ascii) : nat :=
  let n := N_of_ascii c in
  if (n <? 128)%N then 1%nat          (* ASCII *)
  else if (n <? 192)%N then 0%nat     (* a continuation byte *)
  else if (n <? 240)%N then 1%nat     (* the lead byte of two or three *)
  else 2%nat.                         (* the lead byte of four *)

Fixpoint utf16_length (s : string) : nat :=
  match s with
  | "" => 0%nat
  | String c s' => (utf16_units c + utf16_length s')%nat
  end.

(** White space as [trim] and [parseInt] skip it, the WhiteSpace and
    LineTerminator of the language: the ASCII white space, U+00A0, U+1680,
    U+2000 to U+200A, U+2028, U+2029, U+202F, U+205F, U+3000 and U+FEFF, the
    last ten kinds in two or three bytes. *)
Definition is_space (c : ascii) : bool :=
  let n := N_of_ascii c in
  ((9 <=? n) && (n <=? 13) || (n =? 32))%N.

Definition is_space2 (c1 c2 : ascii) : bool :=
  ((N_of_ascii c1 =? 194) && (N_of_ascii c2 =? 160))%N.      (* U+00A0 *)

Definition is_space3 (c1 c2 c3 : ascii) : bool :=
  let a := N_of_ascii c1 in
  let b := N_of_ascii c2 in
  let c := N_of_ascii c3 in
  ((a =? 225) && (b =? 154) && (c =? 128)                    (* U+1680 *)
   || (a =? 226) && (b =? 128)
      && ((128 <=? c) && (c <=? 138)                         (* U+2000 to U+200A *)
          || (c =? 168) || (c =? 169) || (c =? 175))         (* U+2028, U+2029, U+202F *)
   || (a =? 226) && (b =? 129) && (c =? 159)                 (* U+205F *)
   || (a =? 227) && (b =? 128) && (c =? 128)                 (* U+3000 *)
   || (a =? 239) && (b =? 187) && (c =? 191))%N.             (* U+FEFF *)

(** The string without its leading white space. *)
Fixpoint skip_space (s : string) : string :=
  match s with
  | String c1 s1 =>
      if is_space c1 then skip_space s1
      else
        match s1 with
        | String c2 s2 =>
            if is_space2 c1 c2 then skip_space s2
            else
              match s2 with
              | String c3 s3 => if is_space3 c1 c2 c3 then skip_space s3 else s
              | "" => s
              end
        | "" => s
        end
  | "" => ""
  end.

(** The same on a reversed string, where the bytes of a character come
    last byte first. *)
Fixpoint skip_space_rev (s : string) : string :=
  match s with
  | String c1 s1 =>
      if is_space c1 then skip_space_rev s1
      else
        match s1 with
        | String c2 s2 =>
            if is_space2 c2 c1 then skip_space_rev s2
            else
              match s2 with
              | String c3 s3 => if is_space3 c3 c2 c1 then skip_space_rev s3 else s
              | "" => s
              end
        | "" => s
        end
  | "" => ""
  end.

(** [s.trim()]. *)
Definition trim (s : string) : string :=
  String.rev (skip_space_rev (String.rev (skip_space s))).

(** [parseInt(s)] without radix argument: leading white space is skipped,
    a sign is read, a [0x] prefix selects base 16, and the longest run of
    digits is converted; [None] is [NaN]. (The result is the number the
    digits denote; it is the double [parseInt] returns when it is an
    [exact_number].) *)
Definition digit_value (radix : Z) (c : ascii) : option Z :=
  let n := Z.of_N (N_of_ascii c) in
  let d :=
    if (48 <=? n) && (n <=? 57) then Some (n - 48)
    else if (97 <=? n) && (n <=? 122) then Some (n - 87)
    else if (65 <=? n) && (n <=? 90) then Some (n - 55)
    else None in
  match d with
  | Some v => if v <? radix then Some v else None
  | None => None
  end.

Fixpoint parse_digits (radix : Z) (acc : option Z) (s : string) : option Z :=
  match s with
  | "" => acc
  | String c s' =>
      match digit_value radix c with
      | Some d => parse_digits radix (Some (radix * default 0 acc + d)) s'
      | None => acc
      end
  end.

Definition parseInt (s : string) : option Z :=
  let s := skip_space s in
  let '(negative, s) :=
    match s with
    | String "-" s' => (true, s')
    | String "+" s' => (false, s')
    | _ => (false, s)
    end in
  let '(radix, s) :=
    match s with
    | String "0" (String "x" s') => (16, s')
    | String "0" (String "X" s') => (16, s')
    | _ => (10, s)
    end in
  (λ n, if negative then - n else n) <$> parse_digits radix None s.

(** ** Query strings: [URLSearchParams] *)

(** The list of name-value pairs behind a [URLSearchParams] object, with the
    [application/x-www-form-urlencoded] serializer and parser of the URL
    standard. A string stands for the sequence of its UTF-8 bytes, so the
    encoding step of the serializer and the decoding step of the parser are
    the identity here. *)
Module URLSearchParams.

Abbreviation t := (list (string * string)).

Definition has_name (name : string) (p : string * string) : bool :=
  bool_decide (p.1 = name).

(** [params.get(name)]: the value of the first pair with that name, [null]
    when there is none. *)
Definition get (name : string) (l : t) : option string :=
  snd <$> find (has_name name) l.

(** [params.append(name, value)]. *)
Definition append (name value : string) (l : t) : t := l ++ [(name, value)].

(** [params.set(name, value)]: the first pair with that name takes the value
    and the others with that name are removed; without such a pair the new
    one is appended. *)
Fixpoint set (name value : string) (l : t) : t :=
  match l with
  | [] => [(name, value)]
  | p :: l' =>
      if has_name name p
      then (name, value) :: filter (λ q, q.1 ≠ name) l'
      else p :: set name value l'
  end.

(** Bytes the serializer leaves as they are: ASCII letters and digits and
    [*], [-], [.], [_]. *)
Definition unreserved (c : ascii) : bool :=
  let n := N_of_ascii c in
  ((48 <=? n) && (n <=? 57) || (65 <=? n) && (n <=? 90) || (97 <=? n) && (n <=? 122)
   || (n =? 42) || (n =? 45) || (n =? 46) || (n =? 95))%N.

Definition hex_digit (n : N) : ascii :=
  ascii_of_N (if (n <? 10)%N then 48 + n else 55 + n).

Definition hex_value (c : ascii) : option N :=
  let n := N_of_ascii c in
  if ((48 <=? n) && (n <=? 57))%N then Some (n - 48)%N
  else if ((65 <=? n) && (n <=? 70))%N then Some (n - 55)%N
  else if ((97 <=? n) && (n <=? 102))%N then Some (n - 87)%N
  else None.

Definition encode_byte (c : ascii) : string :=
  if unreserved c then String c ""
  else if bool_decide (c = " "%char) then "+"
  else let n := N_of_ascii c in
       String "%" (String (hex_digit (n / 16)) (String (hex_digit (n mod 16)) "")).

Fixpoint urlencode (s : string) : string :=
  match s with
  | "" => ""
  | String c s' => encode_byte c +:+ urlencode s'
  end.

(** Every byte of [s] satisfies [P]. *)
Fixpoint all_chars (P : ascii → bool) (s : string) : bool :=
  match s with
  | "" => true
  | String c s' => P c && all_chars P s'
  end.

(** The bytes the serializer can put out for a name or a value. *)
Definition encoded_char (c : ascii) : bool :=
  unreserved c || bool_decide (c = "+"%char) || bool_decide (c = "%"%char).

Definition serialize_pair (p : string * string) : string :=
  urlencode p.1 +:+ "=" +:+ urlencode p.2.

(** What a serialized pair is for the parser: a piece that is not empty and
    has no [&]. *)
Definition piece (s : string) : Prop :=
  s ≠ "" ∧ all_chars (λ c, negb (bool_decide (c = "&"%char))) s = true.

(** [params.toString()]. *)
Definition toString (l : t) : string :=
  String.concat "&" (serialize_pair <$> l).

Fixpoint percent_decode (s : string) : string :=
  match s with
  | "" => ""
  | String c s' =>
      match s' with
      | String a (String b rest) =>
          if bool_decide (c = "%"%char) then
            match hex_value a, hex_value b with
            | Some h, Some l => String (ascii_of_N (16 * h + l)) (percent_decode rest)
            | _, _ => String c (percent_decode s')
            end
          else String c (percent_decode s')
      | _ => String c (percent_decode s')
      end
  end.

Fixpoint plus_to_space (s : string) : string :=
  match s with
  | "" => ""
  | String c s' =>
      String (if bool_decide (c = "+"%char) then " "%char else c) (plus_to_space s')
  end.

(** The pieces of [s] between the occurrences of [sep]. *)
Fixpoint split_on (sep : ascii) (s : string) : list string :=
  match s with
  | "" => [""]
  | String c s' =>
      if bool_decide (c = sep) then "" :: split_on sep s'
      else match split_on sep s' with
           | h :: tl => String c h :: tl
           | [] => [String c ""]
           end
  end.

(** Name and value of one piece: split at the first [=]; a piece without
    [=] is a name with an empty value. *)
Fixpoint split_pair (s : string) : string * string :=
  match s with
  | "" => ("", "")
  | String c s' =>
      if bool_decide (c = "="%char) then ("", s')
      else let '(n, v) := split_pair s' in (String c n, v)
  end.

Definition parse_pair (s : string) : string * string :=
  let '(n, v) := split_pair s in
  (percent_decode (plus_to_space n), percent_decode (plus_to_space v)).

(** The parser applied to a query (without its leading [?]): empty pieces
    are skipped. *)
Definition parse (s : string) : t :=
  parse_pair <$> filter (λ seg, seg ≠ "") (split_on "&" s).

End URLSearchParams.

(** A parsed URL, as [new URL(window.location.href)] yields it: [query] and
    [fragment] are [None] when the URL has no [?] or [#] part. *)
Record Url : Type := {
  origin : string;
  pathname : string;
  query : option string;
  fragment : option string;
}.

(** [url.searchParams]. *)
Definition searchParams (u : Url) : URLSearchParams.t :=
  URLSearchParams.parse (default "" (query u)).

(** The URL after an update of its [searchParams]: the list is serialized
    into the query, an empty serialization removes the query. *)
Definition with_searchParams (u : Url) (l : URLSearchParams.t) : Url :=
  let s := URLSearchParams.toString l in
  {| origin := origin u; pathname := pathname u;
     query := if bool_decide (s = "") then None else Some s;
     fragment := fragment u |}.

(** [url.toString()], also [url.href]. *)
Definition href (u : Url) : string :=
  origin u +:+ pathname u
  +:+ match query u with Some q => "?" +:+ q | None => "" end
  +:+ match fragment u with Some f => "#" +:+ f | None => "" end.

(** ** The product page: [ProductForm] *)

Module ProductForm.

(** A variant of the product JSON, with the properties the script reads. *)
Record Variant : Type := {
  variant_id : Z;                  (* id *)
  option1 : JSVal;
  option2 : JSVal;
  option3 : JSVal;
  price : Z;
  compare_at_price : option Z;     (* null when there is none *)
  available : bool;
  sku : option string;             (* null when there is none *)
  featured_media : option Z;       (* featured_media.id, null when absent *)
}.

Record Product : Type := {
  variants : list Variant;
  options : list string;           (* the declared option groups *)
}.

(** [variant[`option${n}`]]: the platform's variants carry [option1],
    [option2] and [option3]; any other index reads a missing property. *)
Definition variant_option (v : Variant) (n : nat) : JSVal :=
  match n with
  | 1%nat => option1 v
  | 2%nat => option2 v
  | 3%nat => option3 v
  | _ => JUndefined
  end.

(** [getVariantFromOptions(options)]; [this.product] is [None] when the page
    has no product JSON, and the result [None] stands for [null] and for the
    [undefined] of a [find] without match. *)
Definition getVariantFromOptions (product : option Product) (opts : list string)
    : option Variant :=
  match product with
  | None => None
  | Some p =>
      find (λ variant,
              every (λ option index,
                       strict_eq (variant_option variant (index + 1)) (JStr option))
                    opts)
           (variants p)
  end.

(** *** What the resolver is meant to compute *)







(** *** The DOM of the product section *)

(** The [input] inside an option button. *)
Record OptionInput : Type := {
  value : string;
  checked : bool;
  disabled : bool;
}.

(** A [.product__option-button] with its [input]; [unavailable] is the
    presence of the class [product__option-button--unavailable]. *)
Record OptionButton : Type := {
  unavailable : bool;
  input : OptionInput;
}.

(** A [[data-option-index]] group: the text of its [[data-option-value]]
    span, when it has one, and its buttons in document order. The inputs of a
    group are the inputs of its buttons. *)
Record OptionGroup : Type := {
  valueSpan : option string;
  buttons : list OptionButton;
}.

(** The add-to-cart button. *)
Record SubmitButton : Type := {
  btn_disabled : bool;
  btn_textContent : string;
}.

Record SkuContainer : Type := {
  sku_textContent : string;
  sku_hidden : bool;
}.

(** A child element that an [innerHTML] assignment creates. *)
Record Element : Type := {
  tag : string;
  className : string;
  textContent : string;
}.

(** [window.translations], each entry possibly missing. *)
Record Translations : Type := {
  sale : option string;
  unavailable_text : option string;   (* translations.unavailable *)
  soldOut : option string;
  addToCart : option string;
}.

(** The parts of [window] the product form reads and writes. [replaced]
    counts the calls of [history.replaceState]. *)
Record Window : Type := {
  translations : option Translations;
  shopify_currency_active : option string;   (* Shopify?.currency?.active *)
  shopCurrency : option string;
  location : Url;
  replaced : nat;
}.

(** [window.translations?.key || dflt]. *)
Definition translate (w : Window) (key : Translations → option string)
    (dflt : string) : string :=
  or_default (translations w ≫= key) dflt.

(** A gallery media item and a thumbnail button. *)
Record MediaItem : Type := {
  media_id : string;        (* data-media-id *)
  media_active : bool;      (* class is-active *)
  media_hidden : bool;
}.

Record Thumb : Type := {
  thumb_id : string;        (* data-thumb-id *)
  thumb_active : bool;
  aria_current : string;
}.

Record Gallery : Type := {
  mediaItems : list MediaItem;
  thumbButtons : list Thumb;
}.

(** The state a [ProductForm] object works on. [gallery] is [None] when the
    section has no gallery container: the gallery object then exists without
    its element lists. *)
Record Form : Type := {
  product : option Product;
  variantIdInput : option string;          (* value of [data-variant-id] *)
  optionGroups : list OptionGroup;
  priceContainer : option (list Element);
  addToCartBtn : option SubmitButton;
  skuContainer : option SkuContainer;
  gallery : option Gallery;
  window : Window;
}.

(** *** The methods *)

(** [group.querySelector('input:checked')]: the first checked input. *)
Definition checked_input (g : OptionGroup) : option OptionInput :=
  find checked (input <$> buttons g).

(** [getSelectedOptions()]: the value of the checked input of every group
    that has one, in group order. *)
Definition getSelectedOptions (f : Form) : list string :=
  omap (λ g, value <$> checked_input g) (optionGroups f).

(** [updateVariantId(variant)]; the id is written in decimal. *)
Definition updateVariantId (variant : option Variant) (f : Form) : Form :=
  match variant, variantIdInput f with
  | Some v, Some _ =>
      {| product := product f; variantIdInput := Some (pretty (variant_id v));
         optionGroups := optionGroups f; priceContainer := priceContainer f;
         addToCartBtn := addToCartBtn f; skuContainer := skuContainer f;
         gallery := gallery f; window := window f |}
  | _, _ => f
  end.

(** [formatMoney(cents)]. *)
Definition formatMoney (w : Window) (cents : Z) : string :=
  let amount := toFixed2 cents in
  let currency :=
    or_default (shopify_currency_active w) (or_default (shopCurrency w) "RSD") in
  amount +:+ " " +:+ currency.

(** [variant.compare_at_price && variant.compare_at_price > variant.price]. *)
Definition on_sale (v : Variant) : bool :=
  match compare_at_price v with
  | Some c => negb (c =? 0) && (price v <? c)
  | None => false
  end.

(** [updatePrice(variant)]. *)
Definition updatePrice (variant : option Variant) (f : Form) : Form :=
  match priceContainer f, variant with
  | Some _, Some v =>
      let w := window f in
      let priceHtml :=
        if on_sale v then
          [ {| tag := "span"; className := "product__price-sale";
               textContent := formatMoney w (price v) |};
            {| tag := "s"; className := "product__price-compare";
               textContent := formatMoney w (default 0 (compare_at_price v)) |};
            {| tag := "span"; className := "product__price-badge";
               textContent := translate w sale "Sale" |} ]
        else
          [ {| tag := "span"; className := "product__price-regular";
               textContent := formatMoney w (price v) |} ] in
      {| product := product f; variantIdInput := variantIdInput f;
         optionGroups := optionGroups f; priceContainer := Some priceHtml;
         addToCartBtn := addToCartBtn f; skuContainer := skuContainer f;
         gallery := gallery f; window := window f |}
  | _, _ => f
  end.

(** [updateAddToCartButton(variant)]. *)
Definition updateAddToCartButton (variant : option Variant) (f : Form) : Form :=
  match addToCartBtn f with
  | None => f
  | Some _ =>
      let w := window f in
      let btn :=
        match variant with
        | None =>
            {| btn_disabled := true;
               btn_textContent := translate w unavailable_text "Unavailable" |}
        | Some v =>
            if negb (available v) then
              {| btn_disabled := true;
                 btn_textContent := translate w soldOut "Sold Out" |}
            else
              {| btn_disabled := false;
                 btn_textContent := translate w addToCart "Add to Cart" |}
        end in
      {| product := product f; variantIdInput := variantIdInput f;
         optionGroups := optionGroups f; priceContainer := priceContainer f;
         addToCartBtn := Some btn; skuContainer := skuContainer f;
         gallery := gallery f; window := window f |}
  end.

(** The label a group shows after [updateOptionLabels]: the selected value at
    the group's index when the group has a value span and that value is
    truthy. *)
Definition updated_label (selectedOptions : list string) (index : nat)
    (g : OptionGroup) : option string :=
  match valueSpan g, selectedOptions !! index with
  | Some old, Some s => Some (if truthy s then s else old)
  | span, _ => span
  end.

(** [updateOptionLabels(selectedOptions)]. *)
Definition updateOptionLabels (selectedOptions : list string) (f : Form) : Form :=
  {| product := product f; variantIdInput := variantIdInput f;
     optionGroups :=
       imap (λ index g,
               {| valueSpan := updated_label selectedOptions index g;
                  buttons := buttons g |})
            (optionGroups f);
     priceContainer := priceContainer f;
     addToCartBtn := addToCartBtn f; skuContainer := skuContainer f;
     gallery := gallery f; window := window f |}.

(** [updateSku(variant)]. *)
Definition updateSku (variant : option Variant) (f : Form) : Form :=
  match skuContainer f with
  | None => f
  | Some c =>
      let c' :=
        match variant ≫= sku with
        | Some s =>
            if truthy s
            then {| sku_textContent := "SKU: " +:+ s; sku_hidden := false |}
            else {| sku_textContent := sku_textContent c; sku_hidden := true |}
        | None => {| sku_textContent := sku_textContent c; sku_hidden := true |}
        end in
      {| product := product f; variantIdInput := variantIdInput f;
         optionGroups := optionGroups f; priceContainer := priceContainer f;
         addToCartBtn := addToCartBtn f; skuContainer := Some c';
         gallery := gallery f; window := window f |}
  end.

(** [updateUrl(variant)]: without a variant nothing happens; with one the
    [variant] parameter of the current URL is set and the history entry
    replaced. *)
Definition updateUrl (variant : option Variant) (f : Form) : Form :=
  match variant with
  | None => f
  | Some v =>
      let w := window f in
      let url := location w in
      let url' :=
        with_searchParams url
          (URLSearchParams.set "variant" (pretty (variant_id v)) (searchParams url)) in
      {| product := product f; variantIdInput := variantIdInput f;
         optionGroups := optionGroups f; priceContainer := priceContainer f;
         addToCartBtn := addToCartBtn f; skuContainer := skuContainer f;
         gallery := gallery f;
         window := {| translations := translations w;
                      shopify_currency_active := shopify_currency_active w;
                      shopCurrency := shopCurrency w;
                      location := url';
                      replaced := S (replaced w) |} |}
  end.

(** [selectedOptions[idx]] read as a value: [undefined] past the end. *)
Definition array_get (l : list string) (idx : nat) : JSVal :=
  match l !! idx with
  | Some s => JStr s
  | None => JUndefined
  end.

(** The callback of [find] in [updateOptionAvailability]: the candidate at
    the group's own position, the current selection at the positions before
    it, nothing at the positions after it. *)
Definition test_matches (selectedOptions : list string) (groupIndex : nat)
    (testOptions : list (option string)) (variant : Variant) : bool :=
  every_sparse
    (λ opt idx,
       if bool_decide (idx = groupIndex)
       then strict_eq (variant_option variant (idx + 1)) (JStr opt)
       else if bool_decide (idx < groupIndex)%nat
       then strict_eq (variant_option variant (idx + 1)) (array_get selectedOptions idx)
       else true)
    testOptions.

(** The body of the inner [forEach] of [updateOptionAvailability] for one
    button of the group at [groupIndex]. *)
Definition revalidate_button (p : Product) (selectedOptions : list string)
    (groupIndex : nat) (button : OptionButton) : OptionButton :=
  let value_ := value (input button) in
  let testOptions := array_set selectedOptions groupIndex value_ in
  let matchingVariant :=
    find (test_matches selectedOptions groupIndex testOptions) (variants p) in
  let isAvailable :=
    match matchingVariant with
    | Some v => available v
    | None => false
    end in
  {| unavailable := negb isAvailable;
     input := {| value := value (input button);
                 checked := checked (input button);
                 disabled := negb (bool_decide (is_Some matchingVariant)) |} |}.

(** [updateOptionAvailability(selectedOptions)]. *)
Definition updateOptionAvailability (selectedOptions : list string) (f : Form) : Form :=
  match product f with
  | None => f
  | Some p =>
      if (length (options p) <? 2)%nat then f
      else
        {| product := product f; variantIdInput := variantIdInput f;
           optionGroups :=
             imap (λ groupIndex group,
                     {| valueSpan := valueSpan group;
                        buttons :=
                          revalidate_button p selectedOptions groupIndex
                            <$> buttons group |})
                  (optionGroups f);
           priceContainer := priceContainer f;
           addToCartBtn := addToCartBtn f; skuContainer := skuContainer f;
           gallery := gallery f; window := window f |}
  end.

(** [ProductGallery.switchMedia(mediaId)]; the scrolling of the active
    thumbnail into view leaves no state behind. *)
Definition switchMedia (mediaId : string) (g : Gallery) : Gallery :=
  {| mediaItems :=
       (λ item,
          let isTarget := bool_decide (media_id item = mediaId) in
          {| media_id := media_id item; media_active := isTarget;
             media_hidden := negb isTarget |}) <$> mediaItems g;
     thumbButtons :=
       (λ thumb,
          let isTarget := bool_decide (thumb_id thumb = mediaId) in
          {| thumb_id := thumb_id thumb; thumb_active := isTarget;
             aria_current := if isTarget then "true" else "false" |})
         <$> thumbButtons g |}.

(** How a call ends: it returns, or a [TypeError] leaves it. *)
Inductive Completion : Type :=
  | Returns
  | Throws.

(** [ProductGallery.updateMedia(variantId, product)]. On a gallery without
    container the element lists are undefined and [switchMedia] throws. *)
Definition updateMedia (variantId : Z) (product : option Product)
    (g : option Gallery) : option Gallery * Completion :=
  match product with
  | None => (g, Returns)
  | Some p =>
      match find (λ v, variant_id v =? variantId) (variants p) ≫= featured_media with
      | Some media =>
          match g with
          | Some gal => (Some (switchMedia (pretty media) gal), Returns)
          | None => (None, Throws)
          end
      | None => (g, Returns)
      end
  end.

(** [onOptionChange()]: the handler of a change of any option input. *)
Definition onOptionChange (f : Form) : Form * Completion :=
  let selectedOptions := getSelectedOptions f in
  let variant := getVariantFromOptions (product f) selectedOptions in
  let f := updateVariantId variant f in
  let f := updatePrice variant f in
  let f := updateAddToCartButton variant f in
  let f := updateOptionLabels selectedOptions f in
  let f := updateSku variant f in
  let f := updateUrl variant f in
  let f := updateOptionAvailability selectedOptions f in
  match variant with
  | Some v =>
      let '(g, c) := updateMedia (variant_id v) (product f) (gallery f) in
      ({| product := product f; variantIdInput := variantIdInput f;
          optionGroups := optionGroups f; priceContainer := priceContainer f;
          addToCartBtn := addToCartBtn f; skuContainer := skuContainer f;
          gallery := g; window := window f |}, c)
  | None => (f, Returns)
  end.

(** The selection a form records: per group, the values and check marks of
    its inputs. *)
Definition recorded (g : OptionGroup) : list (string * bool) :=
  (λ b, (value (input b), checked (input b))) <$> buttons g.

(** The seven updates of [onOptionChange], in its order, for a resolved
    variant and a selection. *)
Definition updates (variant : option Variant) (sel : list string) (f : Form) : Form :=
  updateOptionAvailability sel
    (updateUrl variant
       (updateSku variant
          (updateOptionLabels sel
             (updateAddToCartButton variant
                (updatePrice variant (updateVariantId variant f)))))).

End ProductForm.

(** ** The cart drawer: [CartDrawer] *)

Module CartDrawer.

(** *** Requests and responses *)

Inductive Method : Type := GET | POST.

(** The JSON body of a [/cart/change.js] request; the line key is
    [getAttribute('data-line-key')], [null] when the attribute is absent. *)
Record ChangeBody : Type := {
  change_id : option string;
  change_quantity : Z;
}.

(** The arguments of a [fetch]: the URL and, from the options, the method
    ([GET] without options), the headers and the body. *)
Record Request : Type := {
  url : string;
  method : Method;
  headers : list (string * string);
  body : option ChangeBody;
}.

(** A value read from a property of the JSON body of [/cart.js]: a whole
    number, [undefined] when the body has no such property (as the body of
    an error answer), [null], or any other value (a string, a fraction, a
    boolean, an array, an object), given by the two texts the scripts make
    of it: [String(v)] and [(v / 100).toFixed(2)]. *)
Inductive Value : Type :=
  | Num (n : Z)
  | Undefined
  | Null
  | OtherValue (as_string as_money : string).

(** The body of a [/cart.js] answer when it is not [null], with the
    properties the drawer reads. *)
Record Cart : Type := {
  item_count : Value;
  total_price : Value;
}.

(** What [response.json()] resolves to: any JSON value. *)
Inductive Json : Type :=
  | JsonNull
  | JsonOf (cart : Cart).

(** A response: its [ok] flag and what [text()] and [json()] resolve to,
    [None] when the promise rejects (body not readable, not JSON). *)
Record Response : Type := {
  ok : bool;
  text : option string;
  json : option Json;
}.

(** A [fetch] rejects on a network failure or resolves with a response. *)
Inductive FetchResult : Type :=
  | NetworkError
  | Responds (r : Response).

(** What a rejected promise carries into a [catch]. *)
Inductive Exn : Type :=
  | FetchFailed        (* the TypeError of a failed fetch *)
  | BodyFailed         (* the rejection of text() or json() *)
  | NullRead.          (* the TypeError of reading a property of null *)

(** [String(v)], as a template literal inserts it. *)
Definition to_string (v : Value) : string :=
  match v with
  | Num n => pretty n
  | Undefined => "undefined"
  | Null => "null"
  | OtherValue s _ => s
  end.

(** [(v / 100).toFixed(2)]: [undefined / 100] is [NaN], [null / 100] is 0. *)
Definition to_money (v : Value) : string :=
  match v with
  | Num n => toFixed2 n
  | Undefined => "NaN"
  | Null => "0.00"
  | OtherValue _ m => m
  end.



(** [v === 0]. *)
Definition is_zero (v : Value) : bool :=
  match v with
  | Num n => n =? 0
  | _ => false
  end.

(** The text an element has after [el.textContent = v]: [undefined] and
    [null] give the empty text. *)
Definition text_content_of (v : Value) : string :=
  match v with
  | Undefined | Null => ""
  | _ => to_string v
  end.

(** *** The page *)

(** The drawer element: the [aria-hidden] attribute, the class
    [cart-drawer--loading], and the text of the count and subtotal
    elements when the drawer has them. *)
Record Drawer : Type := {
  aria_hidden : string;
  loading : bool;
  countEl : option string;        (* [data-cart-count-drawer] *)
  subtotalEl : option string;     (* [data-cart-drawer-subtotal] *)
}.

(** A [[data-cart-count]] element of the header. *)
Record HeaderCount : Type := {
  hc_textContent : string;
  hc_hidden : bool;
}.

Section Platform.

(** The commerce platform, opaque to the scripts: a state and the answer it
    gives to each request. *)
Context {Srv : Type}.
Variable respond : Srv → Request → FetchResult * Srv.

(** The page and the platform behind it. [console] holds the
    [console.error] calls, [sent] the requests issued so far, [pending] the
    [/cart.js] answers whose [then] callbacks (one per header element) have
    not run yet, [reloads] the calls of [location.reload()]. *)
Record World : Type := {
  drawer : Drawer;
  body_open : bool;                (* class cart-drawer-open on body *)
  headerCounts : list HeaderCount;
  console : list (string * Exn);
  sent : list Request;
  pending : list (nat * FetchResult);
  reloads : nat;
  server : Srv;
}.

Definition with_drawer (d : Drawer) (w : World) : World :=
  {| drawer := d; body_open := body_open w; headerCounts := headerCounts w;
     console := console w; sent := sent w; pending := pending w;
     reloads := reloads w; server := server w |}.

Definition with_body_open (b : bool) (w : World) : World :=
  {| drawer := drawer w; body_open := b; headerCounts := headerCounts w;
     console := console w; sent := sent w; pending := pending w;
     reloads := reloads w; server := server w |}.

Definition with_headerCounts (h : list HeaderCount) (w : World) : World :=
  {| drawer := drawer w; body_open := body_open w; headerCounts := h;
     console := console w; sent := sent w; pending := pending w;
     reloads := reloads w; server := server w |}.

Definition with_pending (p : list (nat * FetchResult)) (w : World) : World :=
  {| drawer := drawer w; body_open := body_open w; headerCounts := headerCounts w;
     console := console w; sent := sent w; pending := p;
     reloads := reloads w; server := server w |}.

(** *** Asynchronous methods

    An [async] method is a computation on the world that returns a value or
    leaves with a rejection; [await] is sequencing. *)
Definition M (A : Type) : Type := World → (Exn + A) * World.

Definition ret {A : Type} (a : A) : M A := λ w, (inr a, w).

Definition bind {A B : Type} (m : M A) (k : A → M B) : M B :=
  λ w, match m w with
       | (inr a, w') => k a w'
       | (inl e, w') => (inl e, w')
       end.

Definition throw {A : Type} (e : Exn) : M A := λ w, (inl e, w).

(** [try { m } catch (error) { h error }]. *)
Definition try_catch {A : Type} (m : M A) (h : Exn → M A) : M A :=
  λ w, match m w with
       | (inl e, w') => h e w'
       | r => r
       end.

(** [try { m } finally { f }]. *)
Definition try_finally {A : Type} (m : M A) (f : M unit) : M A :=
  λ w, match m w with
       | (r, w') =>
           match f w' with
           | (inl e, w'') => (inl e, w'')
           | (inr _, w'') => (r, w'')
           end
       end.

Notation "x <- m ;; k" := (bind m (λ x, k))
  (at level 100, m at next level, right associativity).
Notation "m ;;; k" := (bind m (λ _, k))
  (at level 100, right associativity).

Definition modify (f : World → World) : M unit := λ w, (inr tt, f w).

(** The page once a request has left and the platform has moved on. *)
Definition record_request (req : Request) (s : Srv) (w : World) : World :=
  {| drawer := drawer w; body_open := body_open w;
     headerCounts := headerCounts w; console := console w;
     sent := sent w ++ [req]; pending := pending w;
     reloads := reloads w; server := s |}.

(** [await fetch(...)]: the request reaches the platform, its answer
    resolves or rejects the promise. *)
Definition fetch (req : Request) : M Response :=
  λ w, let '(res, s) := respond (server w) req in
       let w' := record_request req s w in
       match res with
       | NetworkError => (inl FetchFailed, w')
       | Responds r => (inr r, w')
       end.

(** [await response.text()] and [await response.json()]. *)
Definition read_text (r : Response) : M string :=
  match text r with
  | Some s => ret s
  | None => throw BodyFailed
  end.

Definition read_json (r : Response) : M Json :=
  match json r with
  | Some j => ret j
  | None => throw BodyFailed
  end.

(** [console.error(message, error)]. *)
Definition console_error (message : string) (e : Exn) : M unit :=
  modify (λ w, {| drawer := drawer w; body_open := body_open w;
                  headerCounts := headerCounts w;
                  console := console w ++ [(message, e)];
                  sent := sent w; pending := pending w;
                  reloads := reloads w; server := server w |}).

(** [location.reload()]. *)
Definition location_reload : M unit :=
  modify (λ w, {| drawer := drawer w; body_open := body_open w;
                  headerCounts := headerCounts w; console := console w;
                  sent := sent w; pending := pending w;
                  reloads := S (reloads w); server := server w |}).

Definition get_request (u : string) : Request :=
  {| url := u; method := GET; headers := []; body := None |}.

(** The request of [updateItem]: a POST of the line key and the quantity
    to [/cart/change.js]. *)
Definition change_request (lineKey : option string) (quantity : Z) : Request :=
  {| url := "/cart/change.js"; method := POST;
     headers := [("Content-Type", "application/json")];
     body := Some {| change_id := lineKey; change_quantity := quantity |} |}.

(** [formatMoney(cents)]. *)
Definition formatMoney (cents : Value) : string :=
  let amount := to_money cents in
  amount +:+ " RSD".

(** [setLoading(loading)]: the class [cart-drawer--loading] is set or
    removed. *)
Definition toggle_loading (l : bool) (w : World) : World :=
  with_drawer {| aria_hidden := aria_hidden (drawer w); loading := l;
                 countEl := countEl (drawer w);
                 subtotalEl := subtotalEl (drawer w) |} w.

Definition setLoading (l : bool) : M unit := modify (toggle_loading l).

(** [updateDrawerContent(cart)]. Of a [null] body the first property read
    throws, before anything is written: [cart.item_count] for the count
    element or, without one, [cart.total_price] for the subtotal element or,
    without either, the [cart.item_count] of the last test. *)
Definition updateDrawerContent (body : Json) : M unit :=
  match body with
  | JsonNull => throw NullRead
  | JsonOf cart =>
      modify (λ w,
        let d := drawer w in
        with_drawer
          {| aria_hidden := aria_hidden d; loading := loading d;
             countEl := (λ _, "(" +:+ to_string (item_count cart) +:+ ")") <$> countEl d;
             subtotalEl := (λ _, formatMoney (total_price cart)) <$> subtotalEl d |} w) ;;;
      if is_zero (item_count cart) then location_reload else ret tt
  end.

(** [refresh()]. The section markup is fetched and parsed, and its parse is
    not used; the totals come from [/cart.js]. *)
Definition refresh : M unit :=
  try_catch
    (response <- fetch (get_request "/?section_id=cart-drawer-content") ;;
     html <- read_text response ;;
     cartResponse <- fetch (get_request "/cart.js") ;;
     cart <- read_json cartResponse ;;
     updateDrawerContent cart)
    (λ error, console_error "Error refreshing cart:" error).

(** How the snapshot of [refresh] can fail on a platform in state [s],
    told from the platform's answers, with the error that reaches the
    [catch]: the section request is rejected or its body cannot be read, the
    [/cart.js] request is rejected, or its body is not JSON or is [null]. *)
Inductive snapshot_fails (s : Srv) : Exn → Prop :=
  | section_rejected s2 :
      respond s (get_request "/?section_id=cart-drawer-content") = (NetworkError, s2) →
      snapshot_fails s FetchFailed
  | section_unreadable r2 s2 :
      respond s (get_request "/?section_id=cart-drawer-content") = (Responds r2, s2) →
      text r2 = None →
      snapshot_fails s BodyFailed
  | cart_rejected r2 s2 html s3 :
      respond s (get_request "/?section_id=cart-drawer-content") = (Responds r2, s2) →
      text r2 = Some html →
      respond s2 (get_request "/cart.js") = (NetworkError, s3) →
      snapshot_fails s FetchFailed
  | cart_not_json r2 s2 html r3 s3 :
      respond s (get_request "/?section_id=cart-drawer-content") = (Responds r2, s2) →
      text r2 = Some html →
      respond s2 (get_request "/cart.js") = (Responds r3, s3) →
      json r3 = None →
      snapshot_fails s BodyFailed
  | cart_null r2 s2 html r3 s3 :
      respond s (get_request "/?section_id=cart-drawer-content") = (Responds r2, s2) →
      text r2 = Some html →
      respond s2 (get_request "/cart.js") = (Responds r3, s3) →
      json r3 = Some JsonNull →
      snapshot_fails s NullRead.

(** [updateHeaderCount()]: one [/cart.js] request per header element, sent
    in the loop; the callbacks run when the answers arrive, after the
    method has returned. *)
Definition request_header_count (index : nat) (w : World) : World :=
  let req := get_request "/cart.js" in
  let '(res, s) := respond (server w) req in
  {| drawer := drawer w; body_open := body_open w;
     headerCounts := headerCounts w; console := console w;
     sent := sent w ++ [req]; pending := pending w ++ [(index, res)];
     reloads := reloads w; server := s |}.

Definition request_header_counts (w : World) : World :=
  foldl (λ w index, request_header_count index w) w
        (seq 0 (length (headerCounts w))).

Definition updateHeaderCount : M unit := modify request_header_counts.

(** The [then] chain of one header element, run on the answer to its
    request: a rejection, also the one of reading [item_count] of a [null]
    body, is not handled and changes nothing. *)
Definition settle_header_count (index : nat) (res : FetchResult) (w : World) : World :=
  match res with
  | Responds r =>
      match json r with
      | Some (JsonOf cart) =>
          with_headerCounts
            (alter (λ _, {| hc_textContent := text_content_of (item_count cart);
                            hc_hidden := is_zero (item_count cart) |})
                   index (headerCounts w)) w
      | Some JsonNull => w
      | None => w
      end
  | NetworkError => w
  end.

(** The callbacks of all the answers that have arrived. *)
Definition settle_pending (w : World) : World :=
  foldl (λ w '(index, res), settle_header_count index res w)
        (with_pending [] w) (pending w).

(** [updateItem(lineKey, quantity)]. *)
Definition updateItem (lineKey : option string) (quantity : Z) : M unit :=
  setLoading true ;;;
  try_finally
    (try_catch
       (response <- fetch (change_request lineKey quantity) ;;
        if ok response
        then refresh ;;; updateHeaderCount
        else ret tt)
       (λ error, console_error "Error updating cart:" error))
    (setLoading false).

(** [removeItem(lineKey)]. *)
Definition removeItem (lineKey : option string) : M unit :=
  updateItem lineKey 0.

(** [open()] and [close()] of the drawer. *)
Definition open : M unit :=
  modify (λ w, with_body_open true
                 (with_drawer {| aria_hidden := "false"; loading := loading (drawer w);
                                 countEl := countEl (drawer w);
                                 subtotalEl := subtotalEl (drawer w) |} w)) ;;;
  refresh.

Definition close : M unit :=
  modify (λ w, with_body_open false
                 (with_drawer {| aria_hidden := "true"; loading := loading (drawer w);
                                 countEl := countEl (drawer w);
                                 subtotalEl := subtotalEl (drawer w) |} w)).

(** *** The click listeners of the drawer *)

(** What a listener finds from the click target: the button that
    [closest(...)] returns, with its [data-line-key] attribute and, for the
    quantity buttons, the text of the quantity element of its item
    ([None] when the item or the element is missing). *)
Record ButtonHit : Type := {
  lineKey : option string;
  quantityText : option string;
}.

(** [parseInt(valueEl?.textContent) || 1]. *)
Definition currentQty (b : ButtonHit) : Z :=
  match quantityText b ≫= parseInt with
  | Some n => if n =? 0 then 1 else n
  | None => 1
  end.

(** The listener for [[data-drawer-quantity-minus]]. *)
Definition onMinusClick (minusBtn : option ButtonHit) : M unit :=
  match minusBtn with
  | Some b =>
      if 1 <? currentQty b
      then updateItem (lineKey b) (currentQty b - 1)
      else removeItem (lineKey b)
  | None => ret tt
  end.

(** The listener for [[data-drawer-quantity-plus]]. *)
Definition onPlusClick (plusBtn : option ButtonHit) : M unit :=
  match plusBtn with
  | Some b => updateItem (lineKey b) (currentQty b + 1)
  | None => ret tt
  end.

(** The listener for [[data-drawer-remove-item]]. *)
Definition onRemoveClick (removeBtn : option ButtonHit) : M unit :=
  match removeBtn with
  | Some b => removeItem (lineKey b)
  | None => ret tt
  end.

End Platform.

Arguments World : clear implicits.

End CartDrawer.

(** ** Predictive search: [SearchModal] *)

Module SearchModal.

(** The double quote that [showNoResults] puts around the query. *)
Definition dquote : string := String "034"%char "".

(** The content of the results element. *)
Inductive Panel : Type :=
  | Markup (html : string)          (* the page's markup, or a result fragment *)
  | Placeholder (hint : string)     (* written by clearResults *)
  | NoResults (message : string).   (* written by showNoResults *)

(** The entries of [window.translations] the component reads. *)
Record Translations : Type := {
  searchPlaceholder : option string;
  searchNoResults : option string;
}.

(** What the [catch] of [fetchResults] can receive: the [AbortError] of an
    aborted request, the [TypeError] of a failed fetch or body read, or the
    [Error('Search failed')] thrown for a status that is not [ok]. *)
Inductive Error : Type :=
  | AbortError
  | NetworkFailure
  | SearchFailed.

(** The results element with its [is-loading] class, and the console with
    its [console.error] calls. *)
Record View : Type := {
  results : Panel;
  is_loading : bool;
  console : list (string * Error);
}.

(** Where a request stands: its [fetch] is pending, its [text()] is pending,
    or its controller was aborted and the rejection is yet to be handled. *)
Inductive Phase : Type :=
  | AwaitResponse
  | AwaitBody
  | Aborted.

#[global] Instance Phase_eq_dec : EqDecision Phase.
Proof. solve_decision. Defined.

Section Component.

Variable translations : option Translations.

(** [clearResults()]. *)
Definition clearResults (v : View) : View :=
  {| results :=
       Placeholder (or_default (translations ≫= searchPlaceholder)
                               "What are you looking for?");
     is_loading := is_loading v; console := console v |}.

(** [showNoResults(query)]. *)
Definition showNoResults (query : string) (v : View) : View :=
  let noResultsText :=
    or_default (translations ≫= searchNoResults) "No results for" in
  {| results := NoResults (noResultsText +:+ " " +:+ dquote +:+ query +:+ dquote);
     is_loading := is_loading v; console := console v |}.

(** The content [showNoResults] gives the results for a query. *)
Definition no_results_for (query : string) : Panel :=
  results (showNoResults query
             {| results := Markup ""; is_loading := false; console := [] |}).

(** *** How a request of [fetchResults] ends *)

(** The ways the two awaits of [fetchResults] can go. A request whose
    controller was aborted rejects with an [AbortError], whichever await is
    pending. *)
Inductive Outcome : Type :=
  | FetchAborted
  | FetchRejected                        (* network failure *)
  | StatusNotOk                          (* response.ok is false *)
  | BodyRejected                         (* text() rejects *)
  | BodyRead (fragment : option string). (* the outerHTML of the
       [data-predictive-search] element of the parsed text, if it has one *)

(** The [try] block from the first await on: the view it leaves, or the
    error thrown. *)
Definition fetchResults_try (query : string) (o : Outcome) (v : View) : Error + View :=
  match o with
  | FetchAborted => inl AbortError
  | FetchRejected => inl NetworkFailure
  | StatusNotOk => inl SearchFailed
  | BodyRejected => inl NetworkFailure
  | BodyRead (Some resultsHTML) =>
      inr {| results := Markup resultsHTML;
             is_loading := is_loading v; console := console v |}
  | BodyRead None => inr (showNoResults query v)
  end.

(** The [catch] block: [error.name !== 'AbortError']. *)
Definition fetchResults_catch (query : string) (error : Error) (v : View) : View :=
  match error with
  | AbortError => v
  | _ =>
      showNoResults query
        {| results := results v; is_loading := is_loading v;
           console := console v ++ [("Search error:", error)] |}
  end.

(** The [finally] block. *)
Definition fetchResults_finally (v : View) : View :=
  {| results := results v; is_loading := false; console := console v |}.

(** [fetchResults(query)] from its first await to its end. *)
Definition fetchResults_settle (query : string) (o : Outcome) (v : View) : View :=
  fetchResults_finally
    match fetchResults_try query o v with
    | inr v' => v'
    | inl error => fetchResults_catch query error v
    end.

(** *** The component in the event loop *)

(** A request in flight: the abort controller made for it (controllers are
    numbered in the order of their creation), the query it carries, and its
    phase. *)
Record InFlight : Type := {
  controller : nat;
  carried : string;
  phase : Phase;
}.

(** The component: the input's value, the pending debounce timer with the
    query its callback holds, [this.abortController], the requests in
    flight, the queries of the requests issued so far (request [n] is the
    one of controller [n]), the view and the [aria-hidden] attribute. *)
Record State : Type := {
  input_value : string;
  debounceTimer : option string;
  abortController : option nat;
  inflight : list InFlight;
  issued : list string;
  view : View;
  aria_hidden : string;
}.

Definition minChars : nat := 3.

(** The state a new component starts in. *)
Definition initial (markup : string) : State :=
  {| input_value := ""; debounceTimer := None; abortController := None;
     inflight := []; issued := [];
     view := {| results := Markup markup; is_loading := false; console := [] |};
     aria_hidden := "true" |}.

(** [controller.abort()]: a request of that controller still in flight is
    aborted; a settled one is not affected. *)
Definition abort (c : nat) (l : list InFlight) : list InFlight :=
  (λ r, if bool_decide (controller r = c)
        then {| controller := controller r; carried := carried r; phase := Aborted |}
        else r) <$> l.

(** [onInput()], run after the input's value has changed. *)
Definition onInput (s : State) : State :=
  let query := trim (input_value s) in
  (* clearTimeout(this.debounceTimer); this.abortController?.abort() *)
  let inflight' :=
    match abortController s with
    | Some c => abort c (inflight s)
    | None => inflight s
    end in
  if (utf16_length query <? minChars)%nat then
    {| input_value := input_value s; debounceTimer := None;
       abortController := abortController s; inflight := inflight';
       issued := issued s; view := clearResults (view s);
       aria_hidden := aria_hidden s |}
  else
    {| input_value := input_value s; debounceTimer := Some query;
       abortController := abortController s; inflight := inflight';
       issued := issued s; view := view s;
       aria_hidden := aria_hidden s |}.

(** [fetchResults(query)] up to its first await: the loading class, a new
    controller, the request. *)
Definition fetchResults_start (query : string) (s : State) : State :=
  let c := length (issued s) in
  {| input_value := input_value s; debounceTimer := None;
     abortController := Some c;
     inflight := inflight s ++ [{| controller := c; carried := query;
                                   phase := AwaitResponse |}];
     issued := issued s ++ [query];
     view := {| results := results (view s); is_loading := true;
                console := console (view s) |};
     aria_hidden := aria_hidden s |}.

Definition lookup_request (c : nat) (s : State) : option InFlight :=
  find (λ r, bool_decide (controller r = c)) (inflight s).

Definition remove_request (c : nat) (l : list InFlight) : list InFlight :=
  filter (λ r, controller r ≠ c) l.

(** The rest of [fetchResults] for the request of controller [c], once its
    outcome [o] is known. *)
Definition finish (c : nat) (query : string) (o : Outcome) (s : State) : State :=
  {| input_value := input_value s; debounceTimer := debounceTimer s;
     abortController := abortController s;
     inflight := remove_request c (inflight s);
     issued := issued s;
     view := fetchResults_settle query o (view s);
     aria_hidden := aria_hidden s |}.

(** [close()]: the results are cleared; the timer and the controller are
    left alone. *)
Definition close (s : State) : State :=
  {| input_value := input_value s; debounceTimer := debounceTimer s;
     abortController := abortController s; inflight := inflight s;
     issued := issued s; view := clearResults (view s);
     aria_hidden := "true" |}.

Definition open (s : State) : State :=
  {| input_value := input_value s; debounceTimer := debounceTimer s;
     abortController := abortController s; inflight := inflight s;
     issued := issued s; view := view s;
     aria_hidden := "false" |}.

(** What the event loop can deliver to the component. *)
Inductive Event : Type :=
  | Input (text : string)               (* a keystroke leaves this value *)
  | TimerFires                          (* the debounce window has passed *)
  | ResponseArrives (c : nat) (ok : bool)
  | BodyArrives (c : nat) (fragment : option string)
  | NetworkFails (c : nat)
  | AbortSettles (c : nat)              (* the AbortError reaches the catch *)
  | Opens
  | Closes.

(** One turn of the event loop; [None] when the event cannot occur in the
    state. The platform answers only requests that were not aborted: once
    [abort()] was called, the pending await rejects with an [AbortError] and
    no response or body is delivered to that request. *)
Definition step (e : Event) (s : State) : option State :=
  match e with
  | Input text =>
      Some (onInput {| input_value := text; debounceTimer := debounceTimer s;
                       abortController := abortController s;
                       inflight := inflight s; issued := issued s;
                       view := view s; aria_hidden := aria_hidden s |})
  | TimerFires =>
      match debounceTimer s with
      | Some query => Some (fetchResults_start query s)
      | None => None
      end
  | ResponseArrives c ok =>
      match lookup_request c s with
      | Some r =>
          match phase r with
          | AwaitResponse =>
              if ok then
                Some {| input_value := input_value s; debounceTimer := debounceTimer s;
                        abortController := abortController s;
                        inflight :=
                          (λ r', if bool_decide (controller r' = c)
                                 then {| controller := c; carried := carried r';
                                         phase := AwaitBody |}
                                 else r') <$> inflight s;
                        issued := issued s; view := view s;
                        aria_hidden := aria_hidden s |}
              else Some (finish c (carried r) StatusNotOk s)
          | _ => None
          end
      | None => None
      end
  | BodyArrives c fragment =>
      match lookup_request c s with
      | Some r =>
          match phase r with
          | AwaitBody => Some (finish c (carried r) (BodyRead fragment) s)
          | _ => None
          end
      | None => None
      end
  | NetworkFails c =>
      match lookup_request c s with
      | Some r =>
          match phase r with
          | AwaitResponse => Some (finish c (carried r) FetchRejected s)
          | AwaitBody => Some (finish c (carried r) BodyRejected s)
          | Aborted => None
          end
      | None => None
      end
  | AbortSettles c =>
      match lookup_request c s with
      | Some r =>
          match phase r with
          | Aborted => Some (finish c (carried r) FetchAborted s)
          | _ => None
          end
      | None => None
      end
  | Opens => Some (open s)
  | Closes => Some (close s)
  end.

(** The component after a sequence of events. *)
Fixpoint run (events : list Event) (s : State) : option State :=
  match events with
  | [] => Some s
  | e :: events' =>
      match step e s with
      | Some s' => run events' s'
      | None => None
      end
  end.

(** An event that ends a request with something other than an abort: the
    request's controller. *)
Definition renders (e : Event) : option nat :=
  match e with
  | ResponseArrives c _ | BodyArrives c _ | NetworkFails c => Some c
  | _ => None
  end.

End Component.

(** What holds of the component between any two events: a request in
    flight carries the query it was issued with; a request that has not been
    aborted belongs to the current controller; the current controller is the
    one of the request issued last; and while a debounce timer is pending
    every request in flight has been aborted. *)
Definition consistent (s : State) : Prop :=
  (∀ r, r ∈ inflight s → issued s !! controller r = Some (carried r))
  ∧ (∀ r, r ∈ inflight s → phase r ≠ Aborted → abortController s = Some (controller r))
  ∧ (∀ c, abortController s = Some c → S c = length (issued s))
  ∧ (is_Some (debounceTimer s) → ∀ r, r ∈ inflight s → phase r = Aborted).

(** The query of a pending timer and the query of a request that has not
    been aborted are the trimmed text of the input. *)
Definition current (s : State) : Prop :=
  (∀ query, debounceTimer s = Some query → query = trim (input_value s))
  ∧ (∀ r, r ∈ inflight s → phase r ≠ Aborted → carried r = trim (input_value s)).

(** The controller an event of the network refers to. *)
Definition concerns (e : Event) : option nat :=
  match e with
  | ResponseArrives c _ | BodyArrives c _ | NetworkFails c | AbortSettles c => Some c
  | _ => None
  end.

End SearchModal.

(** ** The collection page: filters and sorting *)

Module Collection.

(** The entries of [new FormData(form)]: the names and values of the form's
    successful controls, in document order. *)
Definition FormData : Type := list (string * string).

(** The loop over [formData.entries()]: every entry with a truthy value is
    appended. *)
Definition append_entries (formData : FormData) : URLSearchParams.t :=
  foldl (λ params '(key, value_),
           if truthy value_ then URLSearchParams.append key value_ params else params)
        [] formData.

(** The lines that keep the sort parameter of the current location. *)
Definition keep_sort (location : Url) (params : URLSearchParams.t) : URLSearchParams.t :=
  let currentUrl := location in
  match URLSearchParams.get "sort_by" (searchParams currentUrl) with
  | Some sortBy =>
      if truthy sortBy then URLSearchParams.set "sort_by" sortBy params else params
  | None => params
  end.

(** [FiltersDrawer.handleSubmit(e)]: the URL assigned to
    [window.location.href]. *)
Definition handleSubmit (formData : FormData) (location : Url) : string :=
  let params := append_entries formData in
  let params := keep_sort location params in
  let newUrl := pathname location +:+ "?" +:+ URLSearchParams.toString params in
  newUrl.

(** [SidebarFilters.submitForm()]: the URL assigned to
    [window.location.href]. *)
Definition submitForm (formData : FormData) (location : Url) : string :=
  let params := append_entries formData in
  let params := keep_sort location params in
  let newUrl := pathname location +:+ "?" +:+ URLSearchParams.toString params in
  newUrl.

(** The change listener of [SortSelect]: the URL navigated to. *)
Definition onSortChange (selected : string) (location : Url) : string :=
  let currentUrl := location in
  href (with_searchParams currentUrl
          (URLSearchParams.set "sort_by" selected (searchParams currentUrl))).

End Collection.

(** ** Quantities read from inputs *)

(** [parseInt(s) || dflt]: the default replaces [NaN] and [0]. (Quantities
    are whole numbers, exact as long as they stay below 2^53, as for
    [parseInt].) *)
Definition int_or (s : string) (dflt : Z) : Z :=
  match parseInt s with
  | Some n => if n =? 0 then dflt else n
  | None => dflt
  end.

Definition is_digit (c : ascii) : bool :=
  let n := N_of_ascii c in
  ((48 <=? n) && (n <=? 57))%N.

Fixpoint all_digits (s : string) : bool :=
  match s with
  | "" => true
  | String c s' => is_digit c && all_digits s'
  end.

(** ** The quantity stepper of the product form: [setupQuantity] *)

Module ProductQuantity.

(** The three listeners, as functions of the value of the quantity input.
    They exist only when the form has the minus button, the plus button and
    the input. *)
Definition onMinusClick (value : string) : string :=
  let currentValue := int_or value 1 in
  if 1 <? currentValue then pretty (currentValue - 1) else value.

Definition onPlusClick (value : string) : string :=
  let currentValue := int_or value 1 in
  pretty (currentValue + 1).

Definition onChange (value : string) : string :=
  let value_ := int_or value 1 in
  pretty (Z.max 1 value_).

(** What the user does to the stepper: a click on a button, or an edit of
    the input that leaves the given text and fires [change]. *)
Inductive Event : Type :=
  | ClickMinus
  | ClickPlus
  | Edit (typed : string).



End ProductQuantity.

(** ** The cart page: [CartPage] *)

Module CartPage.

(** A [[data-quantity-input]]: its value and its [data-line-index]
    attribute ([null] when absent). *)
Record QuantityInput : Type := {
  value : string;
  line_index : option string;
}.

(** A [[data-cart-item]] with the quantity input found in it, if any. *)
Record Item : Type := {
  input : option QuantityInput;
}.

(** The JSON body posted to [/cart/change.js]. *)
Record Request : Type := {
  line : option string;
  quantity : Z;
}.

(** How the request ends: the fetch rejects, or a response arrives. *)
Inductive Answer : Type :=
  | Rejected
  | Status (ok : bool).

(** The page: the items of the cart form, the requests sent, the
    [console.error] calls and the calls of [location.reload()]. *)
Record Page : Type := {
  items : list Item;
  sent : list Request;
  console : list string;
  reloads : nat;
}.

(** The part of [updateCart] and [removeItem] after the request: a reload
    when the response is [ok], a log line when the fetch rejects. *)
Definition settle (message : string) (answer : Answer) (p : Page) : Page :=
  match answer with
  | Status true =>
      {| items := items p; sent := sent p; console := console p;
         reloads := S (reloads p) |}
  | Status false => p
  | Rejected =>
      {| items := items p; sent := sent p; console := console p ++ [message];
         reloads := reloads p |}
  end.

(** [updateCart(input)], with the answer the platform gives. *)
Definition updateCart (inp : QuantityInput) (answer : Answer) (p : Page) : Page :=
  let lineIndex := line_index inp in
  let quantity_ := int_or (value inp) 0 in
  settle "Error updating cart:" answer
    {| items := items p;
       sent := sent p ++ [{| line := lineIndex; quantity := quantity_ |}];
       console := console p; reloads := reloads p |}.

(** [removeItem(lineIndex)]. *)
Definition removeItem (lineIndex : option string) (answer : Answer) (p : Page) : Page :=
  settle "Error removing item:" answer
    {| items := items p;
       sent := sent p ++ [{| line := lineIndex; quantity := 0 |}];
       console := console p; reloads := reloads p |}.

(** [input.value = v] on the input of item [i]. *)
Definition write_value (i : nat) (v : string) (p : Page) : Page :=
  {| items :=
       alter (λ it, {| input := (λ inp, {| value := v; line_index := line_index inp |})
                                  <$> input it |}) i (items p);
     sent := sent p; console := console p; reloads := reloads p |}.

(** The input a quantity button of item [i] works on:
    [btn.closest('[data-cart-item]')?.querySelector('[data-quantity-input]')]. *)
Definition input_of (i : nat) (p : Page) : option QuantityInput :=
  items p !! i ≫= input.

(** The click listener of a [[data-quantity-minus]] button of item [i]. *)
Definition onMinusClick (i : nat) (answer : Answer) (p : Page) : Page :=
  match input_of i p with
  | Some inp =>
      let currentValue := int_or (value inp) 1 in
      if 1 <? currentValue then
        let v := pretty (currentValue - 1) in
        updateCart {| value := v; line_index := line_index inp |} answer
          (write_value i v p)
      else p
  | None => p
  end.

(** The click listener of a [[data-quantity-plus]] button of item [i]. *)
Definition onPlusClick (i : nat) (answer : Answer) (p : Page) : Page :=
  match input_of i p with
  | Some inp =>
      let currentValue := int_or (value inp) 1 in
      let v := pretty (currentValue + 1) in
      updateCart {| value := v; line_index := line_index inp |} answer
        (write_value i v p)
  | None => p
  end.


(** The click listener of a [[data-remove-item]] button with the given
    [data-line-index] attribute. *)
Definition onRemoveClick (lineIndex : option string) (answer : Answer) (p : Page) : Page :=
  removeItem lineIndex answer p.


End CartPage.

(** ** Swiping through the gallery: [ProductGallery.handleSwipe] *)

Module ProductGallery.
Import ProductForm.

(** [arr.indexOf(x)], [None] for -1. *)
Fixpoint indexOf (x : string) (l : list string) : option nat :=
  match l with
  | [] => None
  | y :: l' => if bool_decide (y = x) then Some 0%nat else S <$> indexOf x l'
  end.

(** The ids of the media items, in document order. *)
Definition mediaIds (g : Gallery) : list string := media_id <$> mediaItems g.

(** [container.querySelector('.product__media-item.is-active')]: the first
    active media item (the media items are the elements with
    [data-media-id]). *)
Definition activeItem (g : Gallery) : option MediaItem :=
  find media_active (mediaItems g).

(** [switchMedia(undefined)]: no id equals [undefined], every item and
    thumbnail loses [is-active]. *)
Definition switchNone (g : Gallery) : Gallery :=
  {| mediaItems :=
       (λ item, {| media_id := media_id item; media_active := false;
                   media_hidden := true |}) <$> mediaItems g;
     thumbButtons :=
       (λ thumb, {| thumb_id := thumb_id thumb; thumb_active := false;
                    aria_current := "false" |}) <$> thumbButtons g |}.

(** [handleSwipe(startX, endX)], for whole pixel coordinates. *)
Definition handleSwipe (startX endX : Z) (g : Gallery) : Gallery :=
  let threshold := 50 in
  let diff := startX - endX in
  if Z.abs diff <? threshold then g
  else
    let ids := mediaIds g in
    match activeItem g ≫= (λ item, indexOf (media_id item) ids) with
    | None => g
    | Some currentIndex =>
        let newIndex :=
          if 0 <? diff then
            (if (currentIndex + 1 <? length ids)%nat then (currentIndex + 1)%nat else 0%nat)
          else
            (if (1 <=? currentIndex)%nat then (currentIndex - 1)%nat
             else (length ids - 1)%nat) in
        match ids !! newIndex with
        | Some mediaId => switchMedia mediaId g
        | None => switchNone g
        end
    end.

(** The flags a gallery has when exactly the items at index [i] are shown. *)
Definition shows_only (i : nat) (g : Gallery) : Prop :=
  ∀ j item, mediaItems g !! j = Some item →
    media_active item = bool_decide (j = i)
    ∧ media_hidden item = negb (bool_decide (j = i)).

End ProductGallery.

(** ** Adding to the cart: [ProductForm.onSubmit] *)

Module AddToCart.

(** The entries of [window.translations] the submit handler reads. *)
Record Texts : Type := {
  adding : option string;
  added : option string;
  addToCart : option string;
}.

Record SubmitButton : Type := {
  disabled : bool;
  textContent : string;
}.

(** A [[data-cart-count]] element of the header. *)
Record HeaderCount : Type := {
  count_text : string;
  count_hidden : bool;
}.

(** The page: the add-to-cart button ([None] when the form has none), the
    header counts, the number of [milutin:cart:open] events dispatched, the
    console, the delays of the [setTimeout] calls made so far, and the number
    of [/cart.js] requests of [updateCartCount]. *)
Record Page : Type := {
  addToCartBtn : option SubmitButton;
  headerCounts : list HeaderCount;
  opened : nat;
  console : list string;
  timers : list Z;
  count_requests : nat;
}.

(** How the two awaits of the [try] block end: the fetch rejects, the body
    is not JSON, or the body is read, with the [ok] flag of the response.
    A body other than [null] has a [description] (a string, as the platform
    sends it) or none; reading [data.description] of a [null] body throws.
    The messages are those of the errors. *)
Inductive Outcome : Type :=
  | FetchRejected (message : string)
  | NotJson (message : string)
  | Json (ok : bool) (description : option string)
  | JsonNull (ok : bool) (message : string).

Section Handler.

Variable translations : option Texts.

Definition translate (key : Texts → option string) (dflt : string) : string :=
  or_default (translations ≫= key) dflt.

Definition with_button (b : SubmitButton) (p : Page) : Page :=
  {| addToCartBtn := Some b; headerCounts := headerCounts p; opened := opened p;
     console := console p; timers := timers p; count_requests := count_requests p |}.

(** [onSubmit(e)] up to the fetch: [None] when there is no button, where the
    write to [this.addToCartBtn.disabled] throws before anything is sent. *)
Definition onSubmit_start (p : Page) : option Page :=
  match addToCartBtn p with
  | Some _ =>
      Some (with_button {| disabled := true;
                           textContent := translate adding "Adding..." |} p)
  | None => None
  end.





(** [updateCartCount()] once [/cart.js] has answered with the item count
    ([None] when the fetch or the body fails). *)
Definition updateCartCount (item_count : option Z) (p : Page) : Page :=
  match item_count with
  | Some n =>
      {| addToCartBtn := addToCartBtn p;
         headerCounts :=
           (λ _, {| count_text := pretty n; count_hidden := n =? 0 |}) <$> headerCounts p;
         opened := opened p; console := console p; timers := timers p;
         count_requests := count_requests p |}
  | None =>
      {| addToCartBtn := addToCartBtn p; headerCounts := headerCounts p;
         opened := opened p;
         console := console p ++ ["Error updating cart count:"];
         timers := timers p; count_requests := count_requests p |}
  end.

End Handler.


End AddToCart.

(** ** Which option buttons stay enabled *)

Module OptionAvailability.
Import ProductForm.


End OptionAvailability.

(** ** The homepage effects *)

Module Homepage.

(** *** Reveal on scroll: [initScrollAnimations] *)

(** An animated element: the class [is-visible], and whether the observer
    still observes it. *)
Record Animated : Type := {
  is_visible : bool;
  observed : bool;
}.

(** The body of the observer callback for one entry, given by the index of
    its target and its [isIntersecting] flag. *)
Definition reveal (els : list Animated) (entry : nat * bool) : list Animated :=
  let '(target, isIntersecting) := entry in
  if isIntersecting
  then alter (λ _, {| is_visible := true; observed := false |}) target els
  else els.

(** The observer callback. *)
Definition onIntersect (entries : list (nat * bool)) (els : list Animated)
    : list Animated :=
  foldl reveal els entries.

(** *** Parallax: [initParallax]

    The scheduling of [updateParallax]; the transform it writes is computed
    in floating point and is not part of this model. *)

(** The [ticking] flag, the animation frames requested and not yet run,
    and the number of runs of [updateParallax]. *)
Record Parallax : Type := {
  ticking : bool;
  frames : nat;
  updates : nat;
}.

(** [updateParallax()], as far as the scheduling goes. *)
Definition updateParallax (s : Parallax) : Parallax :=
  {| ticking := false; frames := frames s; updates := S (updates s) |}.

(** The state after [initParallax]: the listener is there and
    [updateParallax] has run once. *)
Definition started : Parallax :=
  updateParallax {| ticking := false; frames := 0; updates := 0 |}.

(** [onScroll()]. *)
Definition onScroll (s : Parallax) : Parallax :=
  if ticking s then s
  else {| ticking := true; frames := S (frames s); updates := updates s |}.

Inductive Tick : Type :=
  | Scroll
  | Frame.     (* the browser runs a requested animation frame *)

Definition tick (e : Tick) (s : Parallax) : option Parallax :=
  match e with
  | Scroll => Some (onScroll s)
  | Frame =>
      match frames s with
      | O => None
      | S n => Some (updateParallax {| ticking := ticking s; frames := n;
                                       updates := updates s |})
      end
  end.

Fixpoint ticks (events : list Tick) (s : Parallax) : option Parallax :=
  match events with
  | [] => Some s
  | e :: events' =>
      match tick e s with
      | Some s' => ticks events' s'
      | None => None
      end
  end.

Definition is_frame (e : Tick) : bool :=
  match e with Frame => true | Scroll => false end.

(** *** Video backgrounds: [initVideoBackgrounds] *)

(** [s] without the prefix [pre], when it starts with it. *)
Fixpoint strip_prefix (pre s : string) : option string :=
  match pre, s with
  | "", _ => Some s
  | String a pre', String b s' =>
      if bool_decide (a = b) then strip_prefix pre' s' else None
  | String _ _, "" => None
  end.

(** [s.includes(needle)]. *)
Fixpoint includes (needle s : string) : bool :=
  match strip_prefix needle s with
  | Some _ => true
  | None =>
      match s with
      | "" => false
      | String _ s' => includes needle s'
      end
  end.

(** The longest prefix of [s] without the byte [stop]: what [[^stop]+]
    takes, greedily. *)
Fixpoint take_until (stop : ascii) (s : string) : string :=
  match s with
  | "" => ""
  | String c s' => if bool_decide (c = stop) then "" else String c (take_until stop s')
  end.

(** The first capture of a pattern [head([^stop]+)], where [strip] removes
    a match of [head] from the front: the leftmost position where [head]
    matches and at least one byte other than [stop] follows. *)
Fixpoint capture (strip : string → option string) (stop : ascii) (s : string)
    : option string :=
  let here :=
    match strip s with
    | Some rest =>
        let id := take_until stop rest in
        if bool_decide (id = "") then None else Some id
    | None => None
    end in
  match here with
  | Some id => Some id
  | None =>
      match s with
      | "" => None
      | String _ s' => capture strip stop s'
      end
  end.

(** The head of [/[?&]v=([^&]+)/]. *)
Definition strip_watch (s : string) : option string :=
  match s with
  | String c rest =>
      if bool_decide (c = "?"%char) || bool_decide (c = "&"%char)
      then strip_prefix "v=" rest
      else None
  | "" => None
  end.

(** The head of [/youtu\.be\/([^?]+)/]. *)
Definition strip_short (s : string) : option string :=
  strip_prefix "youtu.be/" s.

(** The video id read from [data-video-url]. *)
Definition videoId (videoUrl : string) : option string :=
  if includes "youtube.com" videoUrl then capture strip_watch "&" videoUrl
  else if includes "youtu.be" videoUrl then capture strip_short "?" videoUrl
  else None.

(** The [src] of the iframe appended to a container with the given
    [data-video-url] ([None]: no attribute), when one is appended. *)
Definition iframe_src (videoUrl : option string) : option string :=
  match videoUrl with
  | Some u =>
      if truthy u then
        (λ id, "https://www.youtube.com/embed/" +:+ id
               +:+ "?autoplay=1&mute=1&loop=1&playlist=" +:+ id
               +:+ "&controls=0&showinfo=0&rel=0&modestbranding=1&playsinline=1")
          <$> videoId u
      else None
  | None => None
  end.

End Homepage.

(** ** Sample data *)

(** A shirt in two colours and two sizes, of which the blue one is not made
    in size S, and the product form of its page. *)
Module Samples.
Import ProductForm.

Definition red_s : Variant :=
  {| variant_id := 101; option1 := JStr "Red"; option2 := JStr "S"; option3 := JNull;
     price := 199000; compare_at_price := Some 249000; available := true;
     sku := Some "SH-RED-S"; featured_media := Some 11 |}.

Definition red_m : Variant :=
  {| variant_id := 102; option1 := JStr "Red"; option2 := JStr "M"; option3 := JNull;
     price := 199000; compare_at_price := None; available := false;
     sku := Some "SH-RED-M"; featured_media := Some 11 |}.

Definition blue_m : Variant :=
  {| variant_id := 103; option1 := JStr "Blue"; option2 := JStr "M"; option3 := JNull;
     price := 209000; compare_at_price := None; available := true;
     sku := None; featured_media := Some 12 |}.

Definition shirt : Product :=
  {| variants := [red_s; red_m; blue_m]; options := ["Color"; "Size"] |}.

Definition option_button (v : string) (is_checked : bool) : OptionButton :=
  {| unavailable := false;
     input := {| value := v; checked := is_checked; disabled := false |} |}.

Definition shop_window : Window :=
  {| translations := None; shopify_currency_active := None; shopCurrency := None;
     location := {| origin := "https://shop.example"; pathname := "/products/shirt";
                    query := Some "variant=101"; fragment := None |};
     replaced := 0 |}.

(** The form showing the red shirt in S, with the given inputs checked. *)
Definition shirt_form (color size : string) : Form :=
  {| product := Some shirt;
     variantIdInput := Some "101";
     optionGroups :=
       [ {| valueSpan := Some "Red";
            buttons := [ option_button "Red" (bool_decide (color = "Red"));
                         option_button "Blue" (bool_decide (color = "Blue")) ] |};
         {| valueSpan := Some "S";
            buttons := [ option_button "S" (bool_decide (size = "S"));
                         option_button "M" (bool_decide (size = "M")) ] |} ];
     priceContainer :=
       Some [ {| tag := "span"; className := "product__price-sale";
                 textContent := "1990.00 RSD" |} ];
     addToCartBtn := Some {| btn_disabled := false; btn_textContent := "Add to Cart" |};
     skuContainer := Some {| sku_textContent := "SKU: SH-RED-S"; sku_hidden := false |};
     gallery := Some {| mediaItems := []; thumbButtons := [] |};
     window := shop_window |}.

End Samples.

(** A platform to run the cart drawer against: a cart of lines (key,
    quantity, unit price in cents) and a connection that carries a given
    number of further requests before it drops. *)
Module Shop.
Import CartDrawer.

Record state : Type := {
  lines : list (string * Z * Z);
  carries : nat;
}.

Definition snapshot (l : list (string * Z * Z)) : Cart :=
  {| item_count := Num (foldr (λ '(_, q, _) n, q + n) 0 l);
     total_price := Num (foldr (λ '(_, q, p) n, q * p + n) 0 l) |}.

Definition has_line (key : string) (l : list (string * Z * Z)) : bool :=
  bool_decide (key ∈ (λ '(k, _, _), k) <$> l).

Definition change (key : string) (quantity : Z) (l : list (string * Z * Z))
    : list (string * Z * Z) :=
  omap (λ '(k, q, p),
          if bool_decide (k = key)
          then (if quantity <=? 0 then None else Some (k, quantity, p))
          else Some (k, q, p)) l.

Definition answer (l : list (string * Z * Z)) (ok_ : bool) : Response :=
  {| ok := ok_; text := Some "{...}"; json := Some (JsonOf (snapshot l)) |}.

Definition respond (s : state) (req : Request) : FetchResult * state :=
  match carries s with
  | O => (NetworkError, s)
  | S n =>
      match body req with
      | Some b =>
          match change_id b with
          | Some key =>
              if has_line key (lines s)
              then let l := change key (change_quantity b) (lines s) in
                   (Responds (answer l true), {| lines := l; carries := n |})
              else (Responds (answer (lines s) false),
                    {| lines := lines s; carries := n |})
          | None =>
              (Responds (answer (lines s) false), {| lines := lines s; carries := n |})
          end
      | None =>
          (Responds (answer (lines s) true), {| lines := lines s; carries := n |})
      end
  end.

(** A drawer showing two items for 3980.00, over a cart of two shirts. *)
Definition page (connection : nat) : World state :=
  {| drawer := {| aria_hidden := "false"; loading := false;
                  countEl := Some "(2)"; subtotalEl := Some "3980.00 RSD" |};
     body_open := true;
     headerCounts := [ {| hc_textContent := "2"; hc_hidden := false |} ];
     console := []; sent := []; pending := []; reloads := 0;
     server := {| lines := [("line-1", 2, 199000)]; carries := connection |} |}.

End Shop.

(** A platform whose cart endpoint is down: it accepts every change and
    serves the section, and answers [/cart.js] with a status that is not
    [ok] and the JSON body of an error, which has no [item_count] and no
    [total_price]. *)
Module Outage.
Import CartDrawer.

Definition error_body : Json :=
  JsonOf {| item_count := Undefined; total_price := Undefined |}.

Definition respond (s : unit) (req : Request) : FetchResult * unit :=
  if bool_decide (url req = "/cart.js")
  then (Responds {| ok := false; text := Some "{...}"; json := Some error_body |}, s)
  else (Responds {| ok := true; text := Some "<div></div>"; json := None |}, s).

Definition page : World unit :=
  {| drawer := {| aria_hidden := "false"; loading := false;
                  countEl := Some "(2)"; subtotalEl := Some "3980.00 RSD" |};
     body_open := true;
     headerCounts := [ {| hc_textContent := "2"; hc_hidden := false |} ];
     console := []; sent := []; pending := []; reloads := 0;
     server := tt |}.

End Outage.

Module SearchRun.
Import SearchModal.

(** Two queries typed in quick succession: the request for the first is
    aborted by the next keystroke, and the answer that arrives is the one
    for the second. *)
Definition typing : list Event :=
  [ Input "shi"; TimerFires; Input "shir"; Input "shirt"; TimerFires;
    AbortSettles 0; ResponseArrives 1 true ].

End SearchRun.

(** A collection page, with or without a sort order in its URL. *)
Definition collection_page (q : option string) : Url :=
  {| origin := "https://shop.example"; pathname := "/collections/all";
     query := q; fragment := None |}.

(** A gallery of three media, showing the first. *)
Definition three_media : ProductForm.Gallery :=
  {| ProductForm.mediaItems :=
       [ {| ProductForm.media_id := "11"; ProductForm.media_active := true;
            ProductForm.media_hidden := false |};
         {| ProductForm.media_id := "12"; ProductForm.media_active := false;
            ProductForm.media_hidden := true |};
         {| ProductForm.media_id := "13"; ProductForm.media_active := false;
            ProductForm.media_hidden := true |} ];
     ProductForm.thumbButtons :=
       [ {| ProductForm.thumb_id := "11"; ProductForm.thumb_active := true;
            ProductForm.aria_current := "true" |};
         {| ProductForm.thumb_id := "12"; ProductForm.thumb_active := false;
            ProductForm.aria_current := "false" |};
         {| ProductForm.thumb_id := "13"; ProductForm.thumb_active := false;
            ProductForm.aria_current := "false" |} ] |}.

(** * Properties *)

(** ** Arrays *)





(** ** The variant resolver and the option-change handler *)

Module ProductFormFacts.
Import ProductForm.







(** Without product JSON the resolver returns nothing. *)
Lemma getVariantFromOptions_no_product (opts : list string) :
  getVariantFromOptions None opts = None.
Proof. reflexivity. Qed.

(** *** What the updates leave alone *)

Lemma updateVariantId_None (f : Form) : updateVariantId None f = f.
Proof. reflexivity. Qed.

Lemma updatePrice_None (f : Form) : updatePrice None f = f.
Proof. unfold updatePrice. by destruct (priceContainer f). Qed.

Lemma updateUrl_None (f : Form) : updateUrl None f = f.
Proof. reflexivity. Qed.

Lemma checked_input_recorded (g g' : OptionGroup) :
  recorded g' = recorded g →
  value <$> checked_input g' = value <$> checked_input g.
Proof.
  unfold recorded, checked_input.
  generalize (buttons g) (buttons g'). clear g g'.
  intros l. induction l as [|b l IH]; intros [|b' l']; simpl; try done.
  intros [= Hv Hc Hl]. rewrite Hc.
  destruct (checked (input b)); simpl; [by rewrite Hv | by apply IH].
Qed.

Lemma getSelectedOptions_recorded (f f' : Form) :
  recorded <$> optionGroups f' = recorded <$> optionGroups f →
  getSelectedOptions f' = getSelectedOptions f.
Proof.
  unfold getSelectedOptions.
  generalize (optionGroups f) (optionGroups f'). clear f f'.
  intros l. induction l as [|g l IH]; intros [|g' l']; simpl; try done.
  intros [= Hg Hl]. rewrite (checked_input_recorded g g' Hg).
  pose proof (IH l' Hl) as IH'. unfold omap in IH'.
  destruct (value <$> checked_input g); by rewrite IH'.
Qed.

Lemma recorded_revalidate (p : Product) (sel : list string) (i : nat) (g : OptionGroup) :
  recorded {| valueSpan := valueSpan g;
              buttons := revalidate_button p sel i <$> buttons g |} = recorded g.
Proof.
  unfold recorded. simpl.
  induction (buttons g) as [|b l IH]; [done |].
  rewrite !fmap_cons. by rewrite IH.
Qed.

Lemma imap_fmap_same {A B : Type} (h : A → B) (k : nat → A → A) (l : list A) :
  (∀ i x, h (k i x) = h x) → h <$> imap k l = h <$> l.
Proof.
  revert k. induction l as [|x l IH]; intros k Hk; simpl; [done |].
  rewrite Hk. f_equal. apply IH. intros i y. apply Hk.
Qed.

Lemma updateOptionAvailability_recorded (sel : list string) (f : Form) :
  recorded <$> optionGroups (updateOptionAvailability sel f)
  = recorded <$> optionGroups f.
Proof.
  unfold updateOptionAvailability.
  destruct (product f) as [p|]; [| done].
  destruct (length (options p) <? 2)%nat; [done |]. simpl.
  apply imap_fmap_same. intros i g. apply recorded_revalidate.
Qed.

Lemma updateOptionAvailability_labels (sel : list string) (f : Form) :
  valueSpan <$> optionGroups (updateOptionAvailability sel f)
  = valueSpan <$> optionGroups f.
Proof.
  unfold updateOptionAvailability.
  destruct (product f) as [p|]; [| done].
  destruct (length (options p) <? 2)%nat; [done |]. simpl.
  by apply imap_fmap_same.
Qed.

(** Outside the option groups, [updateOptionAvailability] changes nothing. *)
Lemma updateOptionAvailability_frame (sel : list string) (f : Form) :
  let f' := updateOptionAvailability sel f in
  product f' = product f ∧ variantIdInput f' = variantIdInput f
  ∧ priceContainer f' = priceContainer f ∧ addToCartBtn f' = addToCartBtn f
  ∧ skuContainer f' = skuContainer f ∧ gallery f' = gallery f
  ∧ window f' = window f.
Proof.
  unfold updateOptionAvailability.
  destruct (product f) as [p|] eqn:Hp; [| by rewrite Hp].
  destruct (length (options p) <? 2)%nat; simpl; by rewrite ?Hp.
Qed.


(** C7. Re-validating the availability of the option buttons changes no
    input's value and no check mark, in any group: the selection read from
    the form afterwards is the selection read before, and only the
    [disabled] flags and the unavailable class of the buttons can differ. *)
Theorem updateOptionAvailability_keeps_selection (sel : list string) (f : Form) :
  let f' := updateOptionAvailability sel f in
  length (optionGroups f') = length (optionGroups f)
  ∧ (∀ i g g', optionGroups f !! i = Some g → optionGroups f' !! i = Some g' →
       valueSpan g' = valueSpan g
       ∧ length (buttons g') = length (buttons g)
       ∧ ∀ j b b', buttons g !! j = Some b → buttons g' !! j = Some b' →
           value (input b') = value (input b)
           ∧ checked (input b') = checked (input b))
  ∧ getSelectedOptions f' = getSelectedOptions f.
Proof.
  intros f'. pose proof (updateOptionAvailability_recorded sel f) as Hrec.
  pose proof (updateOptionAvailability_labels sel f) as Hlab.
  fold f' in Hrec, Hlab. split_and!.
  - apply (f_equal length) in Hrec. by rewrite !length_fmap in Hrec.
  - intros i g g' Hg Hg'.
    apply (f_equal (λ l, l !! i)) in Hrec. apply (f_equal (λ l, l !! i)) in Hlab.
    cbv beta in Hrec, Hlab.
    rewrite !list_lookup_fmap, Hg, Hg' in Hrec.
    rewrite !list_lookup_fmap, Hg, Hg' in Hlab. simpl in Hrec, Hlab.
    injection Hrec as Hrec. injection Hlab as Hlab. split_and!; [done | |].
    + apply (f_equal length) in Hrec. unfold recorded in Hrec.
      by rewrite !length_fmap in Hrec.
    + intros j b b' Hb Hb'. apply (f_equal (λ l, l !! j)) in Hrec.
      unfold recorded in Hrec. cbv beta in Hrec.
      rewrite !list_lookup_fmap, Hb, Hb' in Hrec.
      simpl in Hrec. by injection Hrec as -> ->.
  - by apply getSelectedOptions_recorded.
Qed.

(** *** The handler, field by field *)

Lemma onOptionChange_updates (f : Form) :
  let variant := getVariantFromOptions (product f) (getSelectedOptions f) in
  let f' := (onOptionChange f).1 in
  let u := updates variant (getSelectedOptions f) f in
  product f' = product u ∧ variantIdInput f' = variantIdInput u
  ∧ optionGroups f' = optionGroups u ∧ priceContainer f' = priceContainer u
  ∧ addToCartBtn f' = addToCartBtn u ∧ skuContainer f' = skuContainer u
  ∧ window f' = window u.
Proof.
  unfold onOptionChange, updates. cbv zeta.
  destruct (getVariantFromOptions _ _) as [v|]; [| done].
  by destruct (updateMedia _ _ _).
Qed.


Ltac through_availability :=
  match goal with
  | |- context [updateOptionAvailability ?sel ?g] =>
      let H := fresh in
      pose proof (updateOptionAvailability_frame sel g) as H; cbv zeta in H;
      let H1 := fresh in let H2 := fresh in let H3 := fresh in
      let H4 := fresh in let H5 := fresh in let H6 := fresh in
      let H7 := fresh in
      destruct H as (H1 & H2 & H3 & H4 & H5 & H6 & H7);
      rewrite ?H1, ?H2, ?H3, ?H4, ?H5, ?H6, ?H7; clear H1 H2 H3 H4 H5 H6 H7
  end.

Lemma updates_variantIdInput (variant : option Variant) (sel : list string) (f : Form) :
  variantIdInput (updates variant sel f) = variantIdInput (updateVariantId variant f).
Proof.
  unfold updates. through_availability.
  destruct f as [p vid groups pc btn sk gal w].
  by destruct variant, vid, pc, btn, sk.
Qed.

Lemma updates_priceContainer (variant : option Variant) (sel : list string) (f : Form) :
  priceContainer (updates variant sel f) = priceContainer (updatePrice variant f).
Proof.
  unfold updates. through_availability.
  destruct f as [p vid groups pc btn sk gal w].
  by destruct variant, vid, pc, btn, sk.
Qed.







(** With a variant the same handler does replace the history entry: the
    URL then carries the variant's id. *)
Lemma option_change_with_variant_sets_url :
  let f := Samples.shirt_form "Blue" "M" in
  let f' := (onOptionChange f).1 in
  getVariantFromOptions (product f) (getSelectedOptions f) = Some Samples.blue_m
  ∧ replaced (window f') = S (replaced (window f))
  ∧ href (location (window f')) = "https://shop.example/products/shirt?variant=103".
Proof. vm_compute. split_and!; done. Qed.

(** C10. When the selection matches no variant, the variant-id input and
    the price keep what they held: [updateVariantId] and [updatePrice]
    return the form unchanged for no variant. Whatever the selection, the
    variant-id input after the handler holds its old value or the id, in
    decimal, of a variant of the product. *)
Theorem variant_id_and_price_kept_without_variant (f : Form) :
  let f' := (onOptionChange f).1 in
  (getVariantFromOptions (product f) (getSelectedOptions f) = None →
     variantIdInput f' = variantIdInput f ∧ priceContainer f' = priceContainer f)
  ∧ updateVariantId None f = f
  ∧ updatePrice None f = f
  ∧ (variantIdInput f' = variantIdInput f
     ∨ ∃ p v, product f = Some p ∧ v ∈ variants p
              ∧ variantIdInput f' = Some (pretty (variant_id v))).
Proof.
  intros f'. subst f'.
  destruct (onOptionChange_updates f) as (_ & Hvid & _ & Hpc & _). cbv zeta in *.
  rewrite Hvid, Hpc, updates_variantIdInput, updates_priceContainer.
  split_and!.
  - intros ->. by rewrite updatePrice_None.
  - done.
  - apply updatePrice_None.
  - destruct (getVariantFromOptions _ _) as [v|] eqn:Hv; [| by left].
    unfold updateVariantId. destruct (variantIdInput f) eqn:Hin; [| left; by rewrite Hin].
    right. unfold getVariantFromOptions in Hv.
    destruct (product f) as [p|]; [| done].
    exists p, v. split_and!; [done | | done].
    apply find_some in Hv as [Hv _]. by apply list_elem_of_In.
Qed.

Lemma variant_id_and_price_kept_without_variant_witness :
  let f := Samples.shirt_form "Blue" "S" in
  variantIdInput (onOptionChange f).1 = Some "101"
  ∧ priceContainer (onOptionChange f).1 = priceContainer f.
Proof.
  pose proof (variant_id_and_price_kept_without_variant (Samples.shirt_form "Blue" "S"))
    as (H & _).
  exact (H eq_refl).
Defined.

(** The whole handler reads the selection and leaves it: after
    [onOptionChange] the form records the values and check marks it recorded
    before. *)
Lemma onOptionChange_keeps_selection (f : Form) :
  recorded <$> optionGroups (onOptionChange f).1 = recorded <$> optionGroups f
  ∧ getSelectedOptions (onOptionChange f).1 = getSelectedOptions f.
Proof.
  assert (H : recorded <$> optionGroups (onOptionChange f).1
              = recorded <$> optionGroups f).
  { destruct (onOptionChange_updates f) as (_ & _ & -> & _).
    unfold updates. rewrite updateOptionAvailability_recorded.
    generalize (getVariantFromOptions (product f) (getSelectedOptions f)).
    intros variant. destruct f as [p vid groups pc btn sk gal w].
    destruct variant, vid, pc, btn, sk; simpl;
      by apply imap_fmap_same. }
  split; [done | by apply getSelectedOptions_recorded].
Qed.

(** On the shirt page, re-validation with Blue selected disables the S
    button, which no blue variant has, and leaves every check mark. *)
Lemma revalidation_on_shirt :
  let f := Samples.shirt_form "Blue" "M" in
  let f' := updateOptionAvailability (getSelectedOptions f) f in
  (λ g, (λ b, disabled (input b)) <$> buttons g) <$> optionGroups f'
  = [[false; false]; [true; false]]
  ∧ recorded <$> optionGroups f' = recorded <$> optionGroups f.
Proof. vm_compute. done. Qed.

End ProductFormFacts.

(** ** The cart mutation flow *)

Module CartDrawerFacts.
Import CartDrawer.

Section Platform.

Context {Srv : Type}.
Variable respond : Srv → Request → FetchResult * Srv.

Ltac unfold_cart :=
  unfold updateItem, removeItem, refresh, updateDrawerContent, updateHeaderCount,
    setLoading, console_error, location_reload, read_text, read_json, fetch,
    try_finally, try_catch, bind, ret, throw, modify, toggle_loading,
    request_header_counts, record_request, with_drawer.

(** The requests of [updateHeaderCount]: one [/cart.js] per header element;
    nothing else of the page changes while they are sent. *)
Lemma header_requests (l : list nat) (w : World Srv) :
  let w' := foldl (λ w index, request_header_count respond index w) w l in
  drawer w' = drawer w ∧ body_open w' = body_open w
  ∧ headerCounts w' = headerCounts w ∧ console w' = console w
  ∧ reloads w' = reloads w
  ∧ sent w' = sent w ++ replicate (length l) (get_request "/cart.js").
Proof.
  revert w. induction l as [|i l IH]; intros w; simpl.
  - by rewrite app_nil_r.
  - destruct (IH (request_header_count respond i w)) as (-> & -> & -> & -> & -> & ->).
    unfold request_header_count.
    destruct (respond (server w) (get_request "/cart.js")) as [res s]. simpl.
    by rewrite <- app_assoc.
Qed.


(** [refresh] when both of its requests are answered and the second
    carries a body other than [null]: the texts are written from that body,
    whatever the status of the answer. *)
Lemma refresh_fetched (w : World Srv) (r2 : Response) (s2 : Srv) (html : string)
    (r3 : Response) (s3 : Srv) (cart : Cart) :
  respond (server w) (get_request "/?section_id=cart-drawer-content") = (Responds r2, s2) →
  text r2 = Some html →
  respond s2 (get_request "/cart.js") = (Responds r3, s3) →
  json r3 = Some (JsonOf cart) →
  refresh respond w
  = (inr tt,
     {| drawer :=
          {| aria_hidden := aria_hidden (drawer w); loading := loading (drawer w);
             countEl := (λ _, "(" +:+ to_string (item_count cart) +:+ ")")
                          <$> countEl (drawer w);
             subtotalEl := (λ _, formatMoney (total_price cart)) <$> subtotalEl (drawer w) |};
        body_open := body_open w; headerCounts := headerCounts w;
        console := console w;
        sent := sent w ++ [get_request "/?section_id=cart-drawer-content";
                           get_request "/cart.js"];
        pending := pending w;
        reloads := if is_zero (item_count cart) then S (reloads w) else reloads w;
        server := s3 |}).
Proof.
  intros H2 Hhtml H3 Hcart. unfold_cart. simpl. rewrite H2. simpl. rewrite Hhtml.
  simpl. rewrite H3. simpl. rewrite Hcart. simpl.
  destruct (is_zero (item_count cart)); simpl; by rewrite <- app_assoc.
Qed.

(** [refresh] when the snapshot fails: the error is logged and nothing
    else of the page changes. *)
Lemma refresh_failed (w : World Srv) (e : Exn) :
  snapshot_fails respond (server w) e →
  ∃ s' rest,
    refresh respond w
    = (inr tt,
       {| drawer := drawer w; body_open := body_open w;
          headerCounts := headerCounts w;
          console := console w ++ [("Error refreshing cart:", e)];
          sent := sent w ++ get_request "/?section_id=cart-drawer-content" :: rest;
          pending := pending w; reloads := reloads w; server := s' |}).
Proof.
  intros [s2 H2 | r2 s2 H2 Hhtml | r2 s2 html s3 H2 Hhtml H3
          | r2 s2 html r3 s3 H2 Hhtml H3 Hcart | r2 s2 html r3 s3 H2 Hhtml H3 Hcart];
    unfold_cart; simpl; rewrite H2; simpl; rewrite ?Hhtml; simpl;
    rewrite ?H3; simpl; rewrite ?Hcart; simpl; rewrite <- ?app_assoc;
    by eexists _, _.
Qed.

(** One of the two happens. *)
Lemma snapshot_total (s : Srv) :
  (∃ r2 s2 html r3 s3 cart,
      respond s (get_request "/?section_id=cart-drawer-content") = (Responds r2, s2)
      ∧ text r2 = Some html
      ∧ respond s2 (get_request "/cart.js") = (Responds r3, s3)
      ∧ json r3 = Some (JsonOf cart))
  ∨ (∃ e, snapshot_fails respond s e).
Proof.
  destruct (respond s (get_request "/?section_id=cart-drawer-content"))
    as [[|r2] s2] eqn:H2.
  { right. eexists. by eapply section_rejected. }
  destruct (text r2) as [html|] eqn:Hhtml;
    [| right; eexists; by eapply section_unreadable].
  destruct (respond s2 (get_request "/cart.js")) as [[|r3] s3] eqn:H3.
  { right. eexists. by eapply cart_rejected. }
  destruct (json r3) as [[|cart]|] eqn:Hcart.
  - right. eexists. by eapply cart_null.
  - left. by exists r2, s2, html, r3, s3, cart.
  - right. eexists. by eapply cart_not_json.
Qed.

(** [refresh] never rejects, starts with the section request, and leaves
    the rest of the page alone. *)
Lemma refresh_cases (w : World Srv) :
  let w' := (refresh respond w).2 in
  (refresh respond w).1 = inr tt
  ∧ body_open w' = body_open w ∧ headerCounts w' = headerCounts w
  ∧ pending w' = pending w
  ∧ aria_hidden (drawer w') = aria_hidden (drawer w)
  ∧ loading (drawer w') = loading (drawer w)
  ∧ (∃ rest, sent w' = sent w ++ get_request "/?section_id=cart-drawer-content" :: rest).
Proof.
  destruct (snapshot_total (server w))
    as [(r2 & s2 & html & r3 & s3 & cart & H2 & Hhtml & H3 & Hcart) | [e He]].
  - rewrite (refresh_fetched w r2 s2 html r3 s3 cart H2 Hhtml H3 Hcart). simpl.
    split_and!; try done. by eexists.
  - destruct (refresh_failed w e He) as (s' & rest & ->). simpl.
    split_and!; try done. by eexists.
Qed.

(** [updateItem] when the platform accepts the change: the drawer is
    refreshed, the header counts are requested, the loading class is
    removed. *)
Lemma updateItem_accepted (w : World Srv) (k : option string) (q : Z)
    (r1 : Response) (s1 : Srv) :
  respond (server w) (change_request k q) = (Responds r1, s1) → ok r1 = true →
  updateItem respond k q w
  = (inr tt,
     toggle_loading false
       (request_header_counts respond
          (refresh respond
             (record_request (change_request k q) s1 (toggle_loading true w))).2)).
Proof.
  intros H1 Hok. unfold updateItem, setLoading, try_finally, try_catch, bind, modify, fetch.
  simpl. rewrite H1, Hok.
  pose proof (refresh_cases (record_request (change_request k q) s1 (toggle_loading true w)))
    as (Hret & _). cbv zeta in Hret.
  destruct (refresh respond _) as [res w2]. simpl in Hret. subst res.
  reflexivity.
Qed.

(** [updateItem] when the change request fails: a rejected fetch is
    logged by the [catch], a response that is not [ok] passes the [if]
    without a word; in both cases only the loading class was touched. *)
Lemma updateItem_failed (w : World Srv) (k : option string) (q : Z)
    (res : FetchResult) (s1 : Srv) :
  respond (server w) (change_request k q) = (res, s1) →
  match res with NetworkError => True | Responds r => ok r = false end →
  updateItem respond k q w
  = (inr tt,
     {| drawer := {| aria_hidden := aria_hidden (drawer w); loading := false;
                     countEl := countEl (drawer w);
                     subtotalEl := subtotalEl (drawer w) |};
        body_open := body_open w; headerCounts := headerCounts w;
        console := console w
                   ++ match res with
                      | NetworkError => [("Error updating cart:", FetchFailed)]
                      | Responds _ => []
                      end;
        sent := sent w ++ [change_request k q];
        pending := pending w; reloads := reloads w; server := s1 |}).
Proof.
  intros H1 Hres. unfold_cart. simpl. rewrite H1.
  destruct res as [|r]; simpl; [done |]. rewrite Hres. simpl.
  by rewrite app_nil_r.
Qed.


Lemma updateItem_sends_change (w : World Srv) (k : option string) (q : Z) :
  ∃ rest, sent (updateItem respond k q w).2 = sent w ++ change_request k q :: rest.
Proof.
  destruct (respond (server w) (change_request k q)) as [res s1] eqn:H1.
  assert (Hcases : match res with NetworkError => True | Responds r => ok r = false end
                   ∨ ∃ r, res = Responds r ∧ ok r = true).
  { destruct res as [|r]; [by left |]. destruct (ok r) eqn:Hok; [right; by exists r | by left]. }
  destruct Hcases as [Hfail | (r & -> & Hok)].
  - rewrite (updateItem_failed w k q res s1 H1 Hfail). simpl. by exists [].
  - rewrite (updateItem_accepted w k q r s1 H1 Hok). simpl.
    unfold request_header_counts.
    pose proof (refresh_cases (record_request (change_request k q) s1 (toggle_loading true w)))
      as (_ & _ & _ & _ & _ & _ & (rest & Hsent)). cbv zeta in Hsent.
    destruct (refresh respond _) as [res w2]. simpl in *.
    destruct (header_requests (seq 0 (length (headerCounts w2))) w2)
      as (_ & _ & _ & _ & _ & ->).
    rewrite Hsent, <- !app_assoc. simpl. by eexists.
Qed.

(** C3. In the drawer, a click on the minus button of a line whose
    quantity is 1 runs the very computation a click on the line's remove
    button runs: both are [removeItem], which is [updateItem] with quantity
    0, so the page and the platform end in the same state, and the first
    request either sends is a POST to [/cart/change.js] whose JSON body has
    the line key as [id] and 0 as [quantity]. *)
Theorem decrement_from_one_is_removal (w : World Srv) (minusBtn removeBtn : ButtonHit) :
  currentQty minusBtn = 1 →
  lineKey removeBtn = lineKey minusBtn →
  let removal :=
    {| url := "/cart/change.js"; method := POST;
       headers := [("Content-Type", "application/json")];
       body := Some {| change_id := lineKey minusBtn; change_quantity := 0 |} |} in
  onMinusClick respond (Some minusBtn) w = onRemoveClick respond (Some removeBtn) w
  ∧ onMinusClick respond (Some minusBtn) w
    = updateItem respond (lineKey minusBtn) 0 w
  ∧ removeItem respond (lineKey minusBtn) = updateItem respond (lineKey minusBtn) 0
  ∧ (∃ rest, sent (onMinusClick respond (Some minusBtn) w).2 = sent w ++ removal :: rest)
  ∧ (∃ rest, sent (onRemoveClick respond (Some removeBtn) w).2 = sent w ++ removal :: rest).
Proof.
  intros Hqty Hkey removal. subst removal. unfold onMinusClick, onRemoveClick, removeItem.
  rewrite Hqty, Hkey. simpl. split_and!; try done; apply updateItem_sends_change.
Qed.



(** C8, as the drawer has it. When the change request fails, [updateItem]
    returns without rejecting, the count, the subtotal and the header counts
    are what they were, no further request is sent, nothing reloads, and the
    loading class is removed. A rejected fetch (network failure) is logged
    through [console.error]; a response with a status that is not [ok] is
    not logged. *)
Theorem failed_mutation_is_contained (w : World Srv) (k : option string) (q : Z)
    (res : FetchResult) (s1 : Srv) :
  respond (server w) (change_request k q) = (res, s1) →
  match res with NetworkError => True | Responds r => ok r = false end →
  let result := updateItem respond k q w in
  result.1 = inr tt
  ∧ console result.2
    = console w ++ match res with
                   | NetworkError => [("Error updating cart:", FetchFailed)]
                   | Responds _ => []
                   end
  ∧ countEl (drawer result.2) = countEl (drawer w)
  ∧ subtotalEl (drawer result.2) = subtotalEl (drawer w)
  ∧ aria_hidden (drawer result.2) = aria_hidden (drawer w)
  ∧ headerCounts result.2 = headerCounts w
  ∧ pending result.2 = pending w
  ∧ reloads result.2 = reloads w
  ∧ sent result.2 = sent w ++ [change_request k q]
  ∧ loading (drawer result.2) = false.
Proof.
  intros H1 Hres result. subst result.
  rewrite (updateItem_failed w k q res s1 H1 Hres). simpl. by split_and!.
Qed.

End Platform.

(** The minus button next to a quantity of 1 and the remove button of the
    same line, on the sample page. *)
Lemma decrement_from_one_is_removal_witness :
  let minusBtn := {| lineKey := Some "line-1"; quantityText := Some "1" |} in
  let removeBtn := {| lineKey := Some "line-1"; quantityText := None |} in
  onMinusClick Shop.respond (Some minusBtn) (Shop.page 9)
  = onRemoveClick Shop.respond (Some removeBtn) (Shop.page 9).
Proof.
  exact (proj1 (decrement_from_one_is_removal Shop.respond (Shop.page 9)
                  {| lineKey := Some "line-1"; quantityText := Some "1" |}
                  {| lineKey := Some "line-1"; quantityText := None |}
                  eq_refl eq_refl)).
Defined.

(** Removing the last line of the sample cart: the drawer shows the empty
    cart of the platform and the page reloads. *)
Lemma removal_on_sample_page :
  let w' := (removeItem Shop.respond (Some "line-1") (Shop.page 9)).2 in
  countEl (drawer w') = Some "(0)" ∧ subtotalEl (drawer w') = Some "0.00 RSD"
  ∧ reloads w' = 1%nat ∧ loading (drawer w') = false
  ∧ Shop.lines (server w') = [].
Proof. vm_compute. by split_and!. Qed.


(** A cart endpoint that is down is shown as a cart: the change is
    accepted, [/cart.js] answers with a status that is not [ok] and the JSON
    body of an error, and the drawer shows [(undefined)] and [NaN RSD]
    without a log line. *)
Lemma error_body_is_shown :
  let w' := (updateItem Outage.respond (Some "line-1") 3 Outage.page).2 in
  countEl (drawer w') = Some "(undefined)"
  ∧ subtotalEl (drawer w') = Some "NaN RSD"
  ∧ console w' = [] ∧ reloads w' = 0%nat ∧ loading (drawer w') = false.
Proof. by vm_compute. Qed.


Lemma failed_mutation_is_contained_witness :
  let w' := (updateItem Shop.respond (Some "line-1") 3 (Shop.page 0)).2 in
  console w' = [("Error updating cart:", FetchFailed)]
  ∧ countEl (drawer w') = Some "(2)".
Proof.
  pose proof (failed_mutation_is_contained Shop.respond (Shop.page 0)
                (Some "line-1") 3 _ _ eq_refl I) as (_ & H1 & H2 & _).
  exact (conj H1 H2).
Defined.

(** C8, as stated, fails for a status failure: the platform answers the
    change of a line it does not have with a response that is not [ok], and
    [updateItem] logs nothing. *)
Lemma rejected_change_is_not_logged :
  let w := Shop.page 9 in
  let result := updateItem Shop.respond (Some "line-7") 1 w in
  (∃ r s, Shop.respond (server w) (change_request (Some "line-7") 1) = (Responds r, s)
          ∧ ok r = false)
  ∧ result.1 = inr tt
  ∧ console result.2 = []
  ∧ drawer result.2 = drawer w.
Proof.
  vm_compute. split_and!; try done. by do 2 eexists.
Qed.

End CartDrawerFacts.

(** ** Predictive search *)

Module SearchModalFacts.
Import SearchModal.

Section Component.

Variable translations : option Translations.

(** C6. A request that ends with an abort leaves the results and the
    console as they were: its [catch] does nothing. A request that ends with
    a network failure, with a status that is not [ok], or with a failure
    while the body is read, logs the error once and replaces the results with
    the no-results message for its query: the translated text, or
    [No results for] when the page has no translation or an empty one, a
    space, and the query between double quotes. In every case the loading
    class is removed. *)
Theorem cancellation_is_not_failure (query : string) (v : View) :
  let settle := λ o, fetchResults_settle translations query o v in
  let noResultsText :=
    match translations with
    | Some t =>
        match searchNoResults t with
        | Some text => if bool_decide (text = "") then "No results for" else text
        | None => "No results for"
        end
    | None => "No results for"
    end in
  let quote := String "034"%char "" in
  let message := NoResults (noResultsText +:+ " " +:+ quote +:+ query +:+ quote) in
  (results (settle FetchAborted) = results v
   ∧ console (settle FetchAborted) = console v)
  ∧ (results (settle FetchRejected) = message
     ∧ console (settle FetchRejected) = console v ++ [("Search error:", NetworkFailure)])
  ∧ (results (settle StatusNotOk) = message
     ∧ console (settle StatusNotOk) = console v ++ [("Search error:", SearchFailed)])
  ∧ (results (settle BodyRejected) = message
     ∧ console (settle BodyRejected) = console v ++ [("Search error:", NetworkFailure)])
  ∧ (∀ o, is_loading (settle o) = false).
Proof.
  assert (Hmessage :
    ∀ v', results (showNoResults translations query v')
          = NoResults (match translations with
                       | Some t =>
                           match searchNoResults t with
                           | Some text =>
                               if bool_decide (text = "") then "No results for" else text
                           | None => "No results for"
                           end
                       | None => "No results for"
                       end +:+ " " +:+ String "034"%char ""
                       +:+ query +:+ String "034"%char "")).
  { intros v'. unfold showNoResults, dquote. cbn [results]. f_equal.
    destruct translations as [[hint [text|]]|]; cbn; try done.
    all: unfold truthy; by destruct (bool_decide (text = "")). }
  cbv zeta. unfold fetchResults_settle, fetchResults_finally, fetchResults_try,
    fetchResults_catch. cbn [results console is_loading].
  rewrite !Hmessage. by split_and!.
Qed.

(** The same in the event loop: the turn that handles the rejection of an
    aborted request changes neither the results nor the console; the turn in
    which a request fails shows the no-results text for the query the request
    carries and logs the failure. *)
Lemma abort_turn_is_silent (c : nat) (s s' : State) :
  step translations (AbortSettles c) s = Some s' →
  results (view s') = results (view s) ∧ console (view s') = console (view s)
  ∧ is_loading (view s') = false.
Proof.
  simpl. destruct (lookup_request c s) as [r|]; [| done].
  destruct (phase r); try done. by intros [= <-].
Qed.

Lemma failure_turn_shows_no_results (c : nat) (s s' : State) :
  step translations (NetworkFails c) s = Some s'
  ∨ step translations (ResponseArrives c false) s = Some s' →
  ∃ r error, lookup_request c s = Some r
    ∧ results (view s') = no_results_for translations (carried r)
    ∧ console (view s') = console (view s) ++ [("Search error:", error)]
    ∧ error ≠ AbortError.
Proof.
  simpl. destruct (lookup_request c s) as [r|]; [| by intros [|]].
  destruct (phase r); intros [H | H]; try done; injection H as <-;
    by eexists r, _.
Qed.

(** *** The invariant of the event loop *)

Lemma lookup_request_Some (c : nat) (s : State) (r : InFlight) :
  lookup_request c s = Some r → r ∈ inflight s ∧ controller r = c.
Proof.
  unfold lookup_request. intros H. apply find_some in H as [Hin Hc].
  split; [by apply list_elem_of_In | by apply bool_decide_eq_true in Hc].
Qed.

Lemma consistent_initial (markup : string) : consistent (initial markup).
Proof.
  unfold consistent, initial. simpl. split_and!.
  - intros r Hr. by apply elem_of_nil in Hr.
  - intros r Hr. by apply elem_of_nil in Hr.
  - done.
  - intros [q Hq]. done.
Qed.

Lemma abort_all (s : State) (l : list InFlight) :
  l = match abortController s with
      | Some c => abort c (inflight s)
      | None => inflight s
      end →
  consistent s → ∀ r, r ∈ l → phase r = Aborted.
Proof.
  intros -> (_ & H2 & _ & _) r Hr.
  destruct (abortController s) as [c|] eqn:Hc.
  - unfold abort in Hr. apply list_elem_of_fmap in Hr as (r0 & -> & Hr0).
    case_bool_decide as Hcr; [done |].
    destruct (decide (phase r0 = Aborted)) as [|Hne]; [done |].
    specialize (H2 r0 Hr0 Hne). congruence.
  - destruct (decide (phase r = Aborted)) as [|Hne]; [done |].
    specialize (H2 r Hr Hne). congruence.
Qed.

Lemma abort_carried (c : nat) (l : list InFlight) (r : InFlight) :
  r ∈ abort c l → ∃ r0, r0 ∈ l ∧ controller r = controller r0 ∧ carried r = carried r0.
Proof.
  unfold abort. intros Hr. apply list_elem_of_fmap in Hr as (r0 & -> & Hr0).
  exists r0. by case_bool_decide.
Qed.

Lemma consistent_onInput (s : State) : consistent s → consistent (onInput translations s).
Proof.
  intros Hs. pose proof (abort_all s _ eq_refl Hs) as Hall.
  destruct Hs as (H1 & H2 & H3 & H4).
  assert (Hcar : ∀ r,
    r ∈ match abortController s with
        | Some c => abort c (inflight s)
        | None => inflight s
        end → issued s !! controller r = Some (carried r)).
  { intros r Hr. destruct (abortController s) as [c|]; [| by apply H1].
    apply abort_carried in Hr as (r0 & Hr0 & -> & ->). by apply H1. }
  unfold onInput. cbv zeta.
  destruct (utf16_length (trim (input_value s)) <? minChars)%nat;
    unfold consistent; simpl; split_and!; try done.
  - intros r Hr Hne. by specialize (Hall r Hr).
  - intros r Hr Hne. by specialize (Hall r Hr).
Qed.

Lemma consistent_finish (c : nat) (query : string) (o : Outcome) (s : State) :
  consistent s → consistent (finish translations c query o s).
Proof.
  intros (H1 & H2 & H3 & H4). unfold consistent, finish, remove_request. simpl.
  split_and!; try done.
  - intros r Hr. apply list_elem_of_filter in Hr as [_ Hr]. by apply H1.
  - intros r Hr. apply list_elem_of_filter in Hr as [_ Hr]. by apply H2.
  - intros Hq r Hr. apply list_elem_of_filter in Hr as [_ Hr]. by apply H4.
Qed.

Lemma consistent_step (e : Event) (s s' : State) :
  consistent s → step translations e s = Some s' → consistent s'.
Proof.
  intros Hs Hstep. destruct e as [text| |c ok_|c fragment|c|c| |]; simpl in Hstep.
  - injection Hstep as <-. apply consistent_onInput.
    destruct Hs as (H1 & H2 & H3 & H4). by unfold consistent.
  - destruct (debounceTimer s) as [query|] eqn:Hq; [| done]. injection Hstep as <-.
    destruct Hs as (H1 & H2 & H3 & H4).
    unfold consistent, fetchResults_start. simpl. split_and!.
    + intros r Hr. apply elem_of_app in Hr as [Hr | Hr].
      * rewrite lookup_app_l; [by apply H1 |].
        apply lookup_lt_is_Some. by rewrite (H1 r Hr).
      * apply list_elem_of_singleton in Hr as ->. simpl.
        by rewrite list_lookup_middle.
    + intros r Hr Hne. apply elem_of_app in Hr as [Hr | Hr].
      * exfalso. apply Hne. by apply H4.
      * by apply list_elem_of_singleton in Hr as ->.
    + intros c [= <-]. rewrite length_app. simpl. lia.
    + intros [q' Hq']. done.
  - destruct (lookup_request c s) as [r|] eqn:Hr; [| done].
    apply lookup_request_Some in Hr as [Hin Hc].
    destruct (phase r) eqn:Hph; try done.
    destruct ok_; injection Hstep as <-; [| by apply consistent_finish].
    destruct Hs as (H1 & H2 & H3 & H4).
    assert (Hcur : abortController s = Some c).
    { rewrite <- Hc. apply H2; [done | by rewrite Hph]. }
    unfold consistent. simpl. split_and!; try done.
    + intros r' Hr'. apply list_elem_of_fmap in Hr' as (r0 & -> & Hr0).
      case_bool_decide as Hc0; simpl; [| by apply H1].
      rewrite <- Hc0. by apply H1.
    + intros r' Hr' Hne. apply list_elem_of_fmap in Hr' as (r0 & -> & Hr0).
      revert Hne. case_bool_decide as Hc0; simpl; intros Hne; [done |].
      by apply H2.
    + intros Hq r' Hr'. specialize (H4 Hq r Hin). congruence.
  - destruct (lookup_request c s) as [r|] eqn:Hr; [| done].
    destruct (phase r); try done. injection Hstep as <-. by apply consistent_finish.
  - destruct (lookup_request c s) as [r|] eqn:Hr; [| done].
    destruct (phase r); try done; injection Hstep as <-; by apply consistent_finish.
  - destruct (lookup_request c s) as [r|] eqn:Hr; [| done].
    destruct (phase r); try done. injection Hstep as <-. by apply consistent_finish.
  - injection Hstep as <-. destruct Hs as (H1 & H2 & H3 & H4). by unfold consistent.
  - injection Hstep as <-. destruct Hs as (H1 & H2 & H3 & H4). by unfold consistent.
Qed.

Lemma consistent_run (events : list Event) (s s' : State) :
  consistent s → run translations events s = Some s' → consistent s'.
Proof.
  revert s. induction events as [|e events IH]; intros s Hs Hrun; simpl in Hrun.
  - by injection Hrun as <-.
  - destruct (step translations e s) as [s1|] eqn:Hstep; [| done].
    eapply IH; [| exact Hrun]. by eapply consistent_step.
Qed.

Lemma current_step (e : Event) (s s' : State) :
  consistent s → current s → step translations e s = Some s' → current s'.
Proof.
  intros Hs [H5 H6] Hstep.
  destruct e as [text| |c ok_|c fragment|c|c| |]; simpl in Hstep.
  - injection Hstep as <-.
    assert (Hall : ∀ r,
      r ∈ match abortController s with
          | Some c => abort c (inflight s)
          | None => inflight s
          end → phase r = Aborted) by (by apply (abort_all s _ eq_refl)).
    unfold onInput. cbv zeta. simpl.
    destruct (utf16_length (trim text) <? minChars)%nat; unfold current; simpl.
    + split; [done |]. intros r Hr Hne. by specialize (Hall r Hr).
    + split; [by intros q [= <-] |]. intros r Hr Hne. by specialize (Hall r Hr).
  - destruct (debounceTimer s) as [query|] eqn:Hq; [| done]. injection Hstep as <-.
    destruct Hs as (_ & _ & _ & H4). unfold current, fetchResults_start. simpl.
    split; [done |]. intros r Hr Hne. apply elem_of_app in Hr as [Hr | Hr].
    + exfalso. apply Hne. by apply H4.
    + apply list_elem_of_singleton in Hr as ->. simpl. by apply H5.
  - destruct (lookup_request c s) as [r|] eqn:Hr; [| done].
    apply lookup_request_Some in Hr as [Hin Hc].
    destruct (phase r) eqn:Hph; try done.
    destruct ok_; injection Hstep as <-.
    + destruct Hs as (H1 & _). unfold current. simpl. split; [done |].
      intros r' Hr' Hne. apply list_elem_of_fmap in Hr' as (r0 & -> & Hr0).
      revert Hne. case_bool_decide as Hc0; simpl; intros Hne; [| by apply H6].
      pose proof (H1 r0 Hr0) as E0. pose proof (H1 r Hin) as E.
      rewrite Hc0 in E0. rewrite Hc, E0 in E. injection E as ->.
      apply H6; [done | by rewrite Hph].
    + unfold current, finish, remove_request. simpl. split; [done |].
      intros r' Hr'. apply list_elem_of_filter in Hr' as [_ Hr']. by apply H6.
  - destruct (lookup_request c s) as [r|] eqn:Hr; [| done].
    destruct (phase r); try done. injection Hstep as <-.
    unfold current, finish, remove_request. simpl. split; [done |].
    intros r' Hr'. apply list_elem_of_filter in Hr' as [_ Hr']. by apply H6.
  - destruct (lookup_request c s) as [r|] eqn:Hr; [| done].
    destruct (phase r); try done; injection Hstep as <-;
      unfold current, finish, remove_request; simpl; (split; [done |]);
      intros r' Hr'; apply list_elem_of_filter in Hr' as [_ Hr']; by apply H6.
  - destruct (lookup_request c s) as [r|] eqn:Hr; [| done].
    destruct (phase r); try done. injection Hstep as <-.
    unfold current, finish, remove_request. simpl. split; [done |].
    intros r' Hr'. apply list_elem_of_filter in Hr' as [_ Hr']. by apply H6.
  - by injection Hstep as <-.
  - by injection Hstep as <-.
Qed.

Lemma current_run (events : list Event) (s s' : State) :
  consistent s → current s → run translations events s = Some s' → current s'.
Proof.
  revert s. induction events as [|e events IH]; intros s Hs Hc Hrun; simpl in Hrun.
  - by injection Hrun as <-.
  - destruct (step translations e s) as [s1|] eqn:Hstep; [| done].
    eapply IH; [| | exact Hrun]; [by eapply consistent_step | by eapply current_step].
Qed.

Lemma current_initial (markup : string) : current (initial markup).
Proof.
  unfold current, initial. simpl. split; [done |].
  intros r Hr. by apply elem_of_nil in Hr.
Qed.

(** An answer of the network reaches only the request issued last. *)
Lemma answered_is_latest (s : State) (c : nat) (r : InFlight) :
  consistent s → lookup_request c s = Some r → phase r ≠ Aborted →
  S c = length (issued s) ∧ last (issued s) = Some (carried r).
Proof.
  intros (H1 & H2 & H3 & _) Hr Hne. apply lookup_request_Some in Hr as [Hin <-].
  pose proof (H3 _ (H2 r Hin Hne)) as Hlen. split; [done |].
  rewrite last_lookup, <- Hlen. simpl. by apply H1.
Qed.

(** C5. After any sequence of keystrokes, timer expiries and network
    events: when the debounce timer fires and a new request is issued, every
    request still in flight has been aborted; a response, a body or a
    network failure can only reach the request issued last, at a moment when
    no debounce is pending and the query of that request is the trimmed text
    of the input, and what it writes into the results is the fragment
    delivered to that request or the no-results text of that query; an
    aborted request, when its rejection is handled, leaves the results as
    they are. So an event of a request other than the last one issued never
    changes the results. *)
Theorem results_follow_latest_query (markup : string) (events : list Event) (s : State) :
  run translations events (initial markup) = Some s →
  (∀ s', step translations TimerFires s = Some s' →
     Forall (λ r, phase r = Aborted) (inflight s)
     ∧ ∃ query, debounceTimer s = Some query ∧ issued s' = issued s ++ [query]
                ∧ abortController s' = Some (length (issued s)))
  ∧ (∀ e c s', step translations e s = Some s' → renders e = Some c →
       S c = length (issued s)
       ∧ debounceTimer s = None
       ∧ ∃ query, last (issued s) = Some query
           ∧ query = trim (input_value s)
           ∧ (results (view s') = results (view s)
              ∨ (∃ html, e = BodyArrives c (Some html)
                         ∧ results (view s') = Markup html)
              ∨ results (view s') = no_results_for translations query))
  ∧ (∀ c s', step translations (AbortSettles c) s = Some s' →
       results (view s') = results (view s))
  ∧ (∀ e c s', step translations e s = Some s' → concerns e = Some c →
       S c ≠ length (issued s) → results (view s') = results (view s)).
Proof.
  intros Hrun.
  pose proof (consistent_run events _ _ (consistent_initial markup) Hrun) as Hs.
  pose proof (current_run events _ _ (consistent_initial markup)
                (current_initial markup) Hrun) as Hcur.
  assert (Habort : ∀ c s', step translations (AbortSettles c) s = Some s' →
            results (view s') = results (view s)).
  { intros c s' Hstep. simpl in Hstep.
    destruct (lookup_request c s) as [r|]; [| done].
    destruct (phase r); try done. by injection Hstep as <-. }
  assert (Hrender : ∀ e c s', step translations e s = Some s' → renders e = Some c →
       S c = length (issued s)
       ∧ debounceTimer s = None
       ∧ ∃ query, last (issued s) = Some query
           ∧ query = trim (input_value s)
           ∧ (results (view s') = results (view s)
              ∨ (∃ html, e = BodyArrives c (Some html)
                         ∧ results (view s') = Markup html)
              ∨ results (view s') = no_results_for translations query)).
  { intros e c s' Hstep He.
    destruct e as [text| |c' ok_|c' fragment|c'|c'| |]; simpl in He; try done;
      injection He as ->; simpl in Hstep;
      destruct (lookup_request c s) as [r|] eqn:Hr; try done;
      destruct (phase r) eqn:Hph; try done;
      (destruct (answered_is_latest s c r Hs Hr) as [Hlen Hlast];
         [by rewrite Hph |]);
      (pose proof (lookup_request_Some c s r Hr) as [Hin _]);
      (split; [done |]);
      (split; [destruct Hs as (_ & _ & _ & H4); destruct (debounceTimer s);
               [specialize (H4 ltac:(by eexists) r Hin); congruence | done] |]);
      exists (carried r); (split; [done |]);
      (split; [destruct Hcur as [_ H6]; apply H6; [done | by rewrite Hph] |]).
    - destruct ok_; injection Hstep as <-; [by left | by right; right].
    - injection Hstep as <-. destruct fragment as [html|].
      + right; left. by exists html.
      + by right; right.
    - injection Hstep as <-. by right; right.
    - injection Hstep as <-. by right; right. }
  split_and!; [| done | done |].
  - intros s' Hstep. simpl in Hstep.
    destruct (debounceTimer s) as [query|] eqn:Hq; [| done]. injection Hstep as <-.
    split.
    + apply Forall_forall. intros r Hr. destruct Hs as (_ & _ & _ & H4).
      apply H4; [by rewrite Hq | done].
    + by exists query.
  - intros e c s' Hstep He Hne.
    destruct e as [text| |c' ok_|c' fragment|c'|c'| |]; simpl in He; try done;
      injection He as ->.
    + by destruct (Hrender _ c s' Hstep eq_refl) as [Hlen _].
    + by destruct (Hrender _ c s' Hstep eq_refl) as [Hlen _].
    + by destruct (Hrender _ c s' Hstep eq_refl) as [Hlen _].
    + by apply (Habort c).
Qed.

End Component.

Lemma results_follow_latest_query_witness :
  ∃ s, run None SearchRun.typing (initial "") = Some s
       ∧ issued s = ["shi"; "shirt"]
       ∧ ∀ s', step None (BodyArrives 1 (Some "<ul>shirts</ul>")) s = Some s' →
           S 1 = length (issued s) ∧ debounceTimer s = None.
Proof.
  eexists. split_and!; [reflexivity | reflexivity |].
  intros s' Hstep.
  destruct (proj1 (proj2 (results_follow_latest_query None "" SearchRun.typing _ eq_refl))
              _ 1%nat s' Hstep eq_refl) as (H1 & H2 & _).
  exact (conj H1 H2).
Defined.

(** In that run the answer to the first request cannot arrive any more,
    and the body of the second is what ends up in the results. *)
Lemma typing_run :
  ∃ s, run None SearchRun.typing (initial "") = Some s
       ∧ step None (ResponseArrives 0 true) s = None
       ∧ step None (BodyArrives 0 (Some "<ul>shi</ul>")) s = None
       ∧ (results ∘ view) <$> step None (BodyArrives 1 (Some "<ul>shirts</ul>")) s
         = Some (Markup "<ul>shirts</ul>").
Proof. eexists. split_and!; reflexivity. Qed.

End SearchModalFacts.

(** ** Query strings *)

Module URLSearchParamsFacts.
Import URLSearchParams.

Lemma percent_decode_plain (c : ascii) (s : string) :
  c ≠ "%"%char → percent_decode (String c s) = String c (percent_decode s).
Proof.
  intros Hc. destruct s as [|a [|b rest]]; simpl; try done.
  by rewrite bool_decide_false.
Qed.

Lemma unreserved_plain (c : ascii) :
  unreserved c = true → c ≠ "%"%char ∧ c ≠ "+"%char ∧ c ≠ "&"%char ∧ c ≠ "="%char.
Proof.
  intros H. split_and!; intros ->; vm_compute in H; discriminate.
Qed.

Lemma hex_digits_of_byte (c : ascii) :
  let n := N_of_ascii c in
  hex_value (hex_digit (n / 16)) = Some (n / 16)%N
  ∧ hex_value (hex_digit (n mod 16)) = Some (n mod 16)%N
  ∧ unreserved (hex_digit (n / 16)) = true
  ∧ unreserved (hex_digit (n mod 16)) = true
  ∧ ascii_of_N (16 * (n / 16) + n mod 16) = c.
Proof.
  destruct c as [[] [] [] [] [] [] [] []]; vm_compute; by split_and!.
Qed.

Lemma decode_encode_byte (c : ascii) (rest : string) :
  percent_decode (plus_to_space (encode_byte c +:+ rest))
  = String c (percent_decode (plus_to_space rest)).
Proof.
  unfold encode_byte. destruct (unreserved c) eqn:Hu.
  - apply unreserved_plain in Hu as (Hp & Hplus & _). simpl.
    rewrite bool_decide_false by done. by apply percent_decode_plain.
  - case_bool_decide as Hsp.
    + subst c. simpl. by apply percent_decode_plain.
    + destruct (hex_digits_of_byte c) as (Hh & Hl & Huh & Hul & Hc). cbv zeta in *.
      apply unreserved_plain in Huh as (_ & Hhp & _).
      apply unreserved_plain in Hul as (_ & Hlp & _).
      simpl. rewrite (bool_decide_false _ Hhp), (bool_decide_false _ Hlp).
      simpl. by rewrite Hh, Hl, Hc.
Qed.

Lemma decode_urlencode (s : string) :
  percent_decode (plus_to_space (urlencode s)) = s.
Proof.
  induction s as [|c s IH]; [done |]. simpl. by rewrite decode_encode_byte, IH.
Qed.

Lemma all_chars_app (P : ascii → bool) (a b : string) :
  all_chars P (a +:+ b) = all_chars P a && all_chars P b.
Proof.
  induction a as [|c a IH]; simpl; [done |]. by rewrite IH, andb_assoc.
Qed.

Lemma urlencode_encoded (s : string) : all_chars encoded_char (urlencode s) = true.
Proof.
  induction s as [|c s IH]; [done |]. simpl. rewrite all_chars_app, IH, andb_true_r.
  unfold encode_byte. destruct (unreserved c) eqn:Hu.
  - simpl. unfold encoded_char. by rewrite Hu.
  - case_bool_decide; [done |].
    destruct (hex_digits_of_byte c) as (_ & _ & Huh & Hul & _). cbv zeta in *.
    simpl. unfold encoded_char. by rewrite Huh, Hul.
Qed.

Lemma encoded_char_plain (c : ascii) :
  encoded_char c = true → c ≠ "&"%char ∧ c ≠ "="%char.
Proof.
  intros H. split; intros ->; vm_compute in H; discriminate.
Qed.

Lemma split_pair_at (a b : string) :
  all_chars encoded_char a = true →
  split_pair (a +:+ String "=" b) = (a, b).
Proof.
  induction a as [|c a IH]; simpl; [done |].
  intros [Hc Ha]%andb_true_iff. apply encoded_char_plain in Hc as [_ Hc].
  rewrite bool_decide_false by done. by rewrite (IH Ha).
Qed.

Lemma parse_serialize_pair (p : string * string) :
  parse_pair (serialize_pair p) = p.
Proof.
  destruct p as [n v]. unfold parse_pair, serialize_pair. cbn [fst snd].
  change ("=" +:+ urlencode v) with (String "=" (urlencode v)).
  rewrite split_pair_at by apply urlencode_encoded.
  by rewrite !decode_urlencode.
Qed.

Lemma all_chars_impl (P Q : ascii → bool) (s : string) :
  (∀ c, P c = true → Q c = true) → all_chars P s = true → all_chars Q s = true.
Proof.
  intros HPQ. induction s as [|c s IH]; simpl; [done |].
  intros [Hc Hs]%andb_true_iff. by rewrite (HPQ c Hc), IH.
Qed.

Lemma serialize_pair_piece (p : string * string) : piece (serialize_pair p).
Proof.
  destruct p as [n v]. unfold piece, serialize_pair. cbn [fst snd].
  change ("=" +:+ urlencode v) with (String "=" (urlencode v)). split.
  - by destruct (urlencode n).
  - rewrite all_chars_app. simpl. rewrite andb_true_iff. split.
    + eapply all_chars_impl; [| apply urlencode_encoded].
      intros c Hc. apply encoded_char_plain in Hc as [Hc _].
      by rewrite bool_decide_false.
    + eapply all_chars_impl; [| apply urlencode_encoded].
      intros c Hc. apply encoded_char_plain in Hc as [Hc _].
      by rewrite bool_decide_false.
Qed.

Lemma split_on_piece (a : string) :
  all_chars (λ c, negb (bool_decide (c = "&"%char))) a = true →
  split_on "&" a = [a].
Proof.
  induction a as [|c a IH]; simpl; [done |].
  intros [Hc Ha]%andb_true_iff. apply negb_true_iff in Hc. rewrite Hc.
  by rewrite (IH Ha).
Qed.

Lemma split_on_first (a b : string) :
  all_chars (λ c, negb (bool_decide (c = "&"%char))) a = true →
  split_on "&" (a +:+ String "&" b) = a :: split_on "&" b.
Proof.
  induction a as [|c a IH]; simpl; [done |].
  intros [Hc Ha]%andb_true_iff. apply negb_true_iff in Hc. rewrite Hc.
  by rewrite (IH Ha).
Qed.

Lemma split_on_concat (l : list string) :
  l ≠ [] → Forall piece l → split_on "&" (String.concat "&" l) = l.
Proof.
  induction l as [|a l IH]; [done |]. intros _ Hall.
  apply Forall_cons in Hall as [[_ Ha] Hl].
  destruct l as [|b l].
  - simpl. by apply split_on_piece.
  - change (String.concat "&" (a :: b :: l))
      with (a +:+ String "&" (String.concat "&" (b :: l))).
    rewrite split_on_first by done. by rewrite IH.
Qed.

(** The parser reads back what the serializer wrote. *)
Lemma parse_toString (l : t) : parse (toString l) = l.
Proof.
  unfold parse, toString. destruct (decide (l = [])) as [-> | Hne]; [done |].
  assert (Hall : Forall piece (serialize_pair <$> l)).
  { apply Forall_fmap, Forall_forall. intros p _. apply serialize_pair_piece. }
  rewrite split_on_concat; [| by destruct l | done].
  clear Hne. induction l as [|p l IH]; [done |].
  rewrite fmap_cons in *. apply Forall_cons in Hall as [[Hp _] Hl].
  rewrite filter_cons_True by done. rewrite fmap_cons, parse_serialize_pair.
  by rewrite IH.
Qed.

(** *** [get], [set], [append] *)

Lemma get_set (name value_ : string) (l : t) :
  get name (set name value_ l) = Some value_.
Proof.
  unfold get. induction l as [|p l IH]; simpl.
  - unfold has_name. simpl. by rewrite bool_decide_true.
  - destruct (has_name name p) eqn:Hp; simpl.
    + unfold has_name at 1. simpl. by rewrite bool_decide_true.
    + by rewrite Hp.
Qed.

(** After [set], exactly one pair carries the name. *)
Lemma filter_name_out (name : string) (l : t) :
  filter (λ p, p.1 = name) (filter (λ q, q.1 ≠ name) l) = [].
Proof.
  induction l as [|q l IH]; [done |].
  rewrite filter_cons. destruct (decide (q.1 ≠ name)) as [Hq|Hq]; [| done].
  rewrite filter_cons. by destruct (decide (q.1 = name)).
Qed.

Lemma set_once (name value_ : string) (l : t) :
  filter (λ p, p.1 = name) (set name value_ l) = [(name, value_)].
Proof.
  induction l as [|p l IH]; cbn [set].
  - by rewrite filter_cons_True.
  - destruct (has_name name p) eqn:Hp.
    + rewrite filter_cons_True by done. by rewrite filter_name_out.
    + unfold has_name in Hp. apply bool_decide_eq_false in Hp.
      by rewrite filter_cons_False.
Qed.

Lemma get_None (name : string) (l : t) :
  get name l = None ↔ ∀ p, p ∈ l → p.1 ≠ name.
Proof.
  unfold get. induction l as [|p l IH]; simpl.
  - split; [intros _ p Hp; by apply elem_of_nil in Hp | done].
  - unfold has_name at 1. case_bool_decide as Hp; simpl.
    + split; [done |]. intros H. exfalso. apply (H p); [by left | done].
    + rewrite IH. split.
      * intros H q [-> | Hq]%elem_of_cons; [done | by apply H].
      * intros H q Hq. apply H. by right.
Qed.

End URLSearchParamsFacts.

(** ** Filter submission *)

Module CollectionFacts.
Import Collection URLSearchParamsFacts.

Lemma append_entries_from (formData : FormData) (acc : URLSearchParams.t)
    (p : string * string) :
  p ∈ foldl (λ params '(key, value_),
               if truthy value_ then URLSearchParams.append key value_ params
               else params) acc formData →
  p ∈ acc ∨ p ∈ formData.
Proof.
  revert acc. induction formData as [|[k v] fd IH]; intros acc; simpl; [by left |].
  intros H. apply IH in H as [H | H]; [| right; by right].
  destruct (truthy v); [| by left].
  unfold URLSearchParams.append in H. apply elem_of_app in H as [H | H]; [by left |].
  apply list_elem_of_singleton in H as ->. right. by left.
Qed.

Lemma append_entries_subset (formData : FormData) (p : string * string) :
  p ∈ append_entries formData → p ∈ formData.
Proof.
  intros H. apply append_entries_from in H as [H | H]; [| done].
  by apply elem_of_nil in H.
Qed.

(** C9, as the handlers have it. Both filter handlers navigate to the path
    of the current location followed by [?] and the serialized parameters.
    When the current location has a [sort_by] parameter whose (first) value
    is not empty, the new query has exactly one [sort_by] parameter, with
    that value. When the current location has no [sort_by] parameter, or has
    it with an empty value, and the form has no [sort_by] field, the new
    query has no [sort_by] parameter. *)
Theorem sort_parameter_kept (formData : FormData) (location : Url) :
  let q := URLSearchParams.toString (keep_sort location (append_entries formData)) in
  handleSubmit formData location = pathname location +:+ "?" +:+ q
  ∧ submitForm formData location = pathname location +:+ "?" +:+ q
  ∧ (∀ sortBy,
       URLSearchParams.get "sort_by" (searchParams location) = Some sortBy →
       sortBy ≠ "" →
       URLSearchParams.get "sort_by" (URLSearchParams.parse q) = Some sortBy
       ∧ filter (λ p, p.1 = "sort_by") (URLSearchParams.parse q)
         = [("sort_by", sortBy)])
  ∧ (URLSearchParams.get "sort_by" (searchParams location) = None
     ∨ URLSearchParams.get "sort_by" (searchParams location) = Some "" →
     (∀ p, p ∈ formData → p.1 ≠ "sort_by") →
     URLSearchParams.get "sort_by" (URLSearchParams.parse q) = None).
Proof.
  intros q. subst q. rewrite parse_toString. split_and!; [done | done | |].
  - intros sortBy Hget Hne. unfold keep_sort. rewrite Hget.
    unfold truthy. rewrite bool_decide_false by done. simpl.
    split; [apply get_set | apply set_once].
  - intros Hget Hform.
    assert (Hkeep : keep_sort location (append_entries formData)
                    = append_entries formData).
    { unfold keep_sort. by destruct Hget as [-> | ->]. }
    rewrite Hkeep. apply get_None. intros p Hp. apply Hform.
    by apply append_entries_subset.
Qed.

Lemma sort_parameter_kept_witness :
  handleSubmit [("filter.v.availability", "1"); ("filter.v.price.gte", "")]
               (collection_page (Some "sort_by=price-ascending&page=2"))
  = "/collections/all?filter.v.availability=1&sort_by=price-ascending"
  ∧ URLSearchParams.get "sort_by"
      (URLSearchParams.parse "filter.v.availability=1&sort_by=price-ascending")
    = Some "price-ascending".
Proof.
  pose proof (sort_parameter_kept
                [("filter.v.availability", "1"); ("filter.v.price.gte", "")]
                (collection_page (Some "sort_by=price-ascending&page=2")))
    as (H1 & _ & H3 & _).
  split; [exact H1 |].
  exact (proj1 (H3 "price-ascending" eq_refl ltac:(discriminate))).
Defined.

(** C9, as stated, fails for a [sort_by] parameter that is present with an
    empty value: the handlers read the empty string, which is falsy, and the
    new URL has no [sort_by] parameter. *)
Lemma empty_sort_parameter_is_dropped :
  let location := collection_page (Some "sort_by=&page=2") in
  let formData := [("filter.v.availability", "1")] in
  URLSearchParams.get "sort_by" (searchParams location) = Some ""
  ∧ handleSubmit formData location = "/collections/all?filter.v.availability=1"
  ∧ submitForm formData location = "/collections/all?filter.v.availability=1"
  ∧ URLSearchParams.get "sort_by" (URLSearchParams.parse "filter.v.availability=1")
    = None.
Proof. vm_compute. by split_and!. Qed.

(** Without a sort order in the URL the filters alone make the query. *)
Lemma filters_without_sort :
  handleSubmit [("filter.v.availability", "1"); ("filter.p.tag", "novo & lepo")]
               (collection_page None)
  = "/collections/all?filter.v.availability=1&filter.p.tag=novo+%26+lepo".
Proof. reflexivity. Qed.

End CollectionFacts.

(** ** Numbers and their decimal text *)

Module NumberFacts.

Lemma digit_value_char (x : N) :
  (x < 10)%N → digit_value 10 (pretty_N_char x) = Some (Z.of_N x)
               ∧ is_digit (pretty_N_char x) = true.
Proof.
  intros Hx.
  assert (x = 0 ∨ x = 1 ∨ x = 2 ∨ x = 3 ∨ x = 4 ∨ x = 5 ∨ x = 6 ∨ x = 7
          ∨ x = 8 ∨ x = 9)%N as H by lia.
  repeat destruct H as [-> | H]; try subst x; by vm_compute.
Qed.

Lemma parse_digits_go (x : N) :
  ∃ p, ∀ acc s, (0 < x)%N →
    parse_digits 10 acc (pretty_N_go x s)
    = parse_digits 10 (Some (default 0 acc * p + Z.of_N x)) s.
Proof.
  induction (N.lt_wf_0 x) as [x _ IH].
  destruct (decide (x = 0)%N) as [-> | Hx].
  { exists 1. intros acc s Hlt. lia. }
  destruct (decide (x `div` 10 = 0)%N) as [Hd | Hd].
  - exists 10. intros acc s _. rewrite pretty_N_go_step by lia.
    rewrite Hd, pretty_N_go_0. simpl.
    destruct (digit_value_char (x `mod` 10)) as [-> _]; [by apply N.mod_lt |].
    f_equal. f_equal.
    assert (Hm : (x `mod` 10 = x)%N).
    { apply N.mod_small. by apply N.div_small_iff in Hd. }
    rewrite Hm. generalize (default 0 acc) (Z.of_N x). clear. intros. lia.
  - destruct (IH (x `div` 10)%N) as [p Hp]; [apply N.div_lt; lia |].
    exists (10 * p). intros acc s _. rewrite pretty_N_go_step by lia.
    rewrite Hp by (by apply N.neq_0_lt_0). simpl.
    destruct (digit_value_char (x `mod` 10)) as [-> _]; [by apply N.mod_lt |].
    f_equal. f_equal. simpl.
    pose proof (N.div_mod x 10 ltac:(done)) as Hdm.
    assert (Z.of_N x = 10 * Z.of_N (x `div` 10) + Z.of_N (x `mod` 10)) as -> by lia.
    generalize (Z.of_N (x `div` 10)) (Z.of_N (x `mod` 10)) (default 0 acc).
    clear. intros. lia.
Qed.

Lemma all_digits_go (x : N) (s : string) :
  all_digits s = true → all_digits (pretty_N_go x s) = true.
Proof.
  revert s. induction (N.lt_wf_0 x) as [x _ IH]. intros s Hs.
  destruct (decide (x = 0)%N) as [-> | Hx]; [done |].
  rewrite pretty_N_go_step by lia. apply IH; [apply N.div_lt; lia |].
  simpl. rewrite Hs.
  by destruct (digit_value_char (x `mod` 10)) as [_ ->]; [by apply N.mod_lt |].
Qed.

(** A string that starts with a byte of ASCII other than white space has
    no leading white space. *)
Lemma skip_space_ascii (c : ascii) (s : string) :
  (N_of_ascii c < 128)%N → is_space c = false →
  skip_space (String c s) = String c s.
Proof.
  intros Hc Hsp.
  assert (H2 : ∀ c2, is_space2 c c2 = false).
  { intros c2. unfold is_space2. by rewrite (proj2 (N.eqb_neq _ _)) by lia. }
  assert (H3 : ∀ c2 c3, is_space3 c c2 c3 = false).
  { intros c2 c3. unfold is_space3. cbv zeta.
    by rewrite !(proj2 (N.eqb_neq (N_of_ascii c) _)) by lia. }
  destruct s as [|c2 [|c3 s3]]; cbn [skip_space]; by rewrite Hsp, ?H2, ?H3.
Qed.

Lemma is_digit_ascii (c : ascii) :
  is_digit c = true → (N_of_ascii c < 128)%N ∧ is_space c = false.
Proof.
  unfold is_digit, is_space. cbv zeta. generalize (N_of_ascii c). intros n.
  intros [H1 H2]%andb_true_iff. apply N.leb_le in H1, H2. split; [lia |].
  apply orb_false_iff. split.
  - apply andb_false_iff. right. apply N.leb_gt. lia.
  - apply N.eqb_neq. lia.
Qed.

Lemma parseInt_digits (s : string) :
  all_digits s = true → parseInt s = parse_digits 10 None s.
Proof.
  destruct s as [|c s]; [done |]. simpl. intros [Hc Hs]%andb_true_iff.
  unfold parseInt.
  rewrite skip_space_ascii by (by apply is_digit_ascii).
  destruct c as [[] [] [] [] [] [] [] []]; try discriminate Hc;
    simpl; try (by destruct (parse_digits _ _ _)).
  destruct s as [|c' s']; [done |].
  simpl in Hs. apply andb_true_iff in Hs as [Hc' Hs'].
  destruct c' as [[] [] [] [] [] [] [] []]; try discriminate Hc'; simpl;
    by destruct (parse_digits _ _ _).
Qed.

Lemma parseInt_pretty_N (x : N) : parseInt (pretty x) = Some (Z.of_N x).
Proof.
  unfold pretty, pretty_N. case_decide as Hx; [by subst x |].
  rewrite parseInt_digits by (by apply all_digits_go).
  destruct (parse_digits_go x) as [p Hp]. rewrite Hp by lia. done.
Qed.

Lemma parseInt_minus (s : string) :
  all_digits s = true → s ≠ "" → parseInt ("-" +:+ s) = Z.opp <$> parseInt s.
Proof.
  intros Hs Hne. rewrite (parseInt_digits s Hs).
  destruct s as [|c s]; [done |]. simpl in Hs. apply andb_true_iff in Hs as [Hc Hs].
  unfold parseInt.
  change ("-" +:+ String c s) with (String "-"%char (String c s)).
  rewrite skip_space_ascii by done.
  destruct c as [[] [] [] [] [] [] [] []]; try discriminate Hc;
    simpl; try done.
  destruct s as [|c' s']; [done |].
  simpl in Hs. apply andb_true_iff in Hs as [Hc' Hs'].
  by destruct c' as [[] [] [] [] [] [] [] []]; try discriminate Hc'.
Qed.

Lemma parseInt_pretty (z : Z) : parseInt (pretty z) = Some z.
Proof.
  destruct z as [|q|q].
  - done.
  - change (pretty (Z.pos q)) with (pretty (N.pos q)).
    by rewrite parseInt_pretty_N.
  - change (pretty (Z.neg q)) with ("-" +:+ pretty (N.pos q)).
    rewrite parseInt_minus.
    + by rewrite parseInt_pretty_N.
    + unfold pretty, pretty_N. case_decide; [done |]. by apply all_digits_go.
    + unfold pretty, pretty_N. case_decide; [done |].
      intros Hempty. pose proof (parse_digits_go (N.pos q)) as [p Hp].
      specialize (Hp None "" ltac:(lia)). by rewrite Hempty in Hp.
Qed.


End NumberFacts.

(** ** The quantity stepper of the product form *)

Module ProductQuantityFacts.
Import ProductQuantity NumberFacts.







(** Text that is no number counts as 1: the plus button then writes 2, the
    minus button leaves the text, and an edit writes 1. *)
Lemma stepper_on_text :
  onPlusClick "abc" = "2" ∧ onMinusClick "abc" = "abc" ∧ onChange "abc" = "1"
  ∧ onChange "-4" = "1" ∧ onChange "12 pieces" = "12".
Proof. by vm_compute. Qed.

End ProductQuantityFacts.

(** ** The cart page *)

Module CartPageFacts.
Import CartPage NumberFacts.










End CartPageFacts.

(** ** The gallery *)

Module ProductGalleryFacts.
Import ProductForm ProductGallery.

Lemma indexOf_lookup (l : list string) (i : nat) (x : string) :
  NoDup l → l !! i = Some x → indexOf x l = Some i.
Proof.
  revert i. induction l as [|y l IH]; intros i Hnd Hi; [done |].
  apply NoDup_cons in Hnd as [Hy Hnd]. simpl. destruct i as [|i]; simpl in Hi.
  - injection Hi as ->. by rewrite bool_decide_true.
  - rewrite bool_decide_false.
    + by rewrite (IH i Hnd Hi).
    + intros ->. apply Hy. by eapply list_elem_of_lookup_2.
Qed.

Lemma find_only {A : Type} (f : A → bool) (l : list A) (i : nat) (y : A) :
  (∀ j x, l !! j = Some x → f x = bool_decide (j = i)) →
  l !! i = Some y → find f l = Some y.
Proof.
  revert i. induction l as [|x l IH]; intros i Hf Hi; [done |].
  simpl. destruct i as [|i]; simpl in Hi.
  - injection Hi as ->. by rewrite (Hf 0%nat y eq_refl).
  - rewrite (Hf 0%nat x eq_refl). simpl. apply (IH i); [| done].
    intros j z Hj. rewrite (Hf (S j) z Hj).
    apply bool_decide_ext. lia.
Qed.

Lemma mediaIds_switchMedia (mediaId : string) (g : Gallery) :
  mediaIds (switchMedia mediaId g) = mediaIds g.
Proof.
  unfold mediaIds, switchMedia. simpl.
  induction (mediaItems g) as [|item l IH]; [done |].
  rewrite !fmap_cons. by rewrite IH.
Qed.

Lemma switchMedia_lookup (mediaId : string) (g : Gallery) (j : nat) (item' : MediaItem) :
  mediaItems (switchMedia mediaId g) !! j = Some item' →
  ∃ item, mediaItems g !! j = Some item
    ∧ media_id item' = media_id item
    ∧ media_active item' = bool_decide (media_id item = mediaId)
    ∧ media_hidden item' = negb (bool_decide (media_id item = mediaId)).
Proof.
  unfold switchMedia. simpl. rewrite list_lookup_fmap.
  destruct (mediaItems g !! j) as [item|]; [| done].
  simpl. intros [= <-]. by exists item.
Qed.

(** [switchMedia] with the id of the item at index [k], where ids are
    distinct, shows that item and only it. *)
Lemma switchMedia_shows_only (g : Gallery) (k : nat) (mediaId : string) :
  NoDup (mediaIds g) → mediaIds g !! k = Some mediaId →
  shows_only k (switchMedia mediaId g).
Proof.
  intros Hnd Hk j item' Hj.
  apply switchMedia_lookup in Hj as (item & Hitem & _ & -> & ->).
  assert (Hid : mediaIds g !! j = Some (media_id item)).
  { unfold mediaIds. by rewrite list_lookup_fmap, Hitem. }
  assert (Heq : bool_decide (media_id item = mediaId) = bool_decide (j = k)).
  { apply bool_decide_ext. split.
    - intros E. rewrite E in Hid. by eapply NoDup_lookup.
    - intros ->. congruence. }
  by rewrite Heq.
Qed.

Lemma handleSwipe_to (startX endX : Z) (g : Gallery) (i k : nat) :
  NoDup (mediaIds g) → (i < length (mediaItems g))%nat → shows_only i g →
  50 ≤ Z.abs (startX - endX) →
  k = (if 0 <? startX - endX
       then (if (i + 1 <? length (mediaItems g))%nat then (i + 1)%nat else 0%nat)
       else (if (1 <=? i)%nat then (i - 1)%nat
             else (length (mediaItems g) - 1)%nat)) →
  shows_only k (handleSwipe startX endX g)
  ∧ mediaIds (handleSwipe startX endX g) = mediaIds g.
Proof.
  intros Hnd Hi Hshow Hd Hk. unfold handleSwipe. cbv zeta.
  destruct (Z.abs (startX - endX) <? 50) eqn:Hshort; [lia |].
  destruct (lookup_lt_is_Some_2 (mediaItems g) i Hi) as [item Hitem].
  assert (Hact : activeItem g = Some item).
  { unfold activeItem. apply (find_only _ _ i); [| done].
    intros j x Hj. by destruct (Hshow j x Hj) as [-> _]. }
  assert (Hlen : length (mediaIds g) = length (mediaItems g)).
  { unfold mediaIds. by rewrite length_fmap. }
  assert (Hidx : indexOf (media_id item) (mediaIds g) = Some i).
  { apply indexOf_lookup; [done |]. unfold mediaIds.
    by rewrite list_lookup_fmap, Hitem. }
  rewrite Hact. cbn [mbind option_bind]. rewrite Hidx, Hlen, <- Hk.
  assert (Hklt : (k < length (mediaIds g))%nat).
  { rewrite Hlen, Hk.
    destruct (0 <? startX - endX).
    - destruct (i + 1 <? length (mediaItems g))%nat eqn:E; [| lia].
      by apply Nat.ltb_lt in E.
    - destruct (1 <=? i)%nat eqn:E; lia. }
  destruct (lookup_lt_is_Some_2 (mediaIds g) k Hklt) as [mediaId Hid].
  rewrite Hid. split; [by apply switchMedia_shows_only | apply mediaIds_switchMedia].
Qed.

(** A swipe of less than 50 pixels changes nothing. In a gallery with
    distinct media ids that shows the item at index [i] and only it, a swipe
    to the left of 50 pixels or more shows the next item and only it (the
    first after the last), a swipe to the right the previous one (the last
    before the first). *)
Theorem swipe_cycles (g : Gallery) (i : nat) :
  NoDup (mediaIds g) → (i < length (mediaItems g))%nat → shows_only i g →
  let n := length (mediaItems g) in
  (∀ startX endX, Z.abs (startX - endX) < 50 → handleSwipe startX endX g = g)
  ∧ (∀ startX endX, 50 ≤ startX - endX →
       shows_only ((i + 1) mod n) (handleSwipe startX endX g))
  ∧ (∀ startX endX, startX - endX ≤ -50 →
       shows_only ((i + (n - 1)) mod n) (handleSwipe startX endX g)).
Proof.
  intros Hnd Hi Hshow n. subst n. split_and!.
  - intros startX endX Hd. unfold handleSwipe. cbv zeta.
    by destruct (Z.abs (startX - endX) <? 50) eqn:E; [| lia].
  - intros startX endX Hd.
    refine (proj1 (handleSwipe_to startX endX g i _ Hnd Hi Hshow ltac:(lia) _)).
    destruct (0 <? startX - endX) eqn:E; [| lia].
    destruct (i + 1 <? length (mediaItems g))%nat eqn:E1.
    + apply Nat.ltb_lt in E1. by rewrite Nat.mod_small.
    + apply Nat.ltb_ge in E1.
      assert (i + 1 = length (mediaItems g))%nat as -> by lia.
      by rewrite Nat.Div0.mod_same.
  - intros startX endX Hd.
    refine (proj1 (handleSwipe_to startX endX g i _ Hnd Hi Hshow ltac:(lia) _)).
    destruct (0 <? startX - endX) eqn:E; [lia |].
    destruct (1 <=? i)%nat eqn:E1.
    + apply Nat.leb_le in E1.
      replace (i + (length (mediaItems g) - 1))%nat
        with ((i - 1) + 1 * length (mediaItems g))%nat by lia.
      rewrite Nat.Div0.mod_add. rewrite Nat.mod_small by lia. done.
    + apply Nat.leb_gt in E1.
      assert (i = 0)%nat as -> by lia. simpl. rewrite Nat.mod_small by lia. done.
Qed.

Lemma three_media_ready :
  NoDup (mediaIds three_media) ∧ (0 < length (mediaItems three_media))%nat
  ∧ shows_only 0 three_media.
Proof.
  split_and!.
  - apply (bool_decide_unpack _). by vm_compute.
  - simpl. lia.
  - intros [|[|[|j]]] item [= <-]; done.
Defined.

Lemma swipe_cycles_witness :
  shows_only 1 (handleSwipe 300 200 three_media)
  ∧ shows_only 2 (handleSwipe 200 300 three_media).
Proof.
  destruct three_media_ready as (Hnd & Hlen & Hshow).
  pose proof (swipe_cycles three_media 0 Hnd Hlen Hshow) as (_ & Hl & Hr).
  exact (conj (Hl 300 200 ltac:(lia)) (Hr 200 300 ltac:(lia))).
Defined.

(** Swiping one way and then the other brings back the item that was
    shown: after a swipe to the left followed by a swipe to the right, or
    the other way round, the gallery shows the item at index [i] and only
    it again. *)
Theorem swipe_there_and_back (g : Gallery) (i : nat) (a b c d : Z) :
  NoDup (mediaIds g) → (i < length (mediaItems g))%nat → shows_only i g →
  50 ≤ a - b → c - d ≤ -50 →
  shows_only i (handleSwipe c d (handleSwipe a b g))
  ∧ shows_only i (handleSwipe a b (handleSwipe c d g)).
Proof.
  intros Hnd Hi Hshow Hleft Hright.
  assert (Hlen : ∀ g', mediaIds g' = mediaIds g →
            length (mediaItems g') = length (mediaItems g)).
  { intros g' E. apply (f_equal length) in E. unfold mediaIds in E.
    by rewrite !length_fmap in E. }
  split.
  - destruct (handleSwipe_to a b g i _ Hnd Hi Hshow ltac:(lia) eq_refl) as [H1 E1].
    pose proof (Hlen _ E1) as L1.
    refine (proj1 (handleSwipe_to c d _ _ i _ _ H1 ltac:(lia) _)).
    + by rewrite E1.
    + rewrite L1. destruct (0 <? a - b) eqn:E; [| lia].
      destruct (i + 1 <? length (mediaItems g))%nat eqn:E'; [| lia].
      by apply Nat.ltb_lt in E'.
    + rewrite L1. destruct (0 <? a - b) eqn:E; [| lia].
      destruct (0 <? c - d) eqn:E0; [lia |].
      destruct (i + 1 <? length (mediaItems g))%nat eqn:E'.
      * apply Nat.ltb_lt in E'.
        destruct (1 <=? i + 1)%nat eqn:E''; [lia |]. apply Nat.leb_gt in E''. lia.
      * apply Nat.ltb_ge in E'. simpl. lia.
  - destruct (handleSwipe_to c d g i _ Hnd Hi Hshow ltac:(lia) eq_refl) as [H1 E1].
    pose proof (Hlen _ E1) as L1.
    refine (proj1 (handleSwipe_to a b _ _ i _ _ H1 ltac:(lia) _)).
    + by rewrite E1.
    + rewrite L1. destruct (0 <? c - d) eqn:E; [lia |].
      destruct (1 <=? i)%nat eqn:E'; lia.
    + rewrite L1. destruct (0 <? c - d) eqn:E; [lia |].
      destruct (0 <? a - b) eqn:E0; [| lia].
      destruct (1 <=? i)%nat eqn:E'.
      * apply Nat.leb_le in E'.
        destruct (i - 1 + 1 <? length (mediaItems g))%nat eqn:E''; [lia |].
        apply Nat.ltb_ge in E''. lia.
      * apply Nat.leb_gt in E'.
        destruct (length (mediaItems g) - 1 + 1 <? length (mediaItems g))%nat eqn:E'';
          [apply Nat.ltb_lt in E''; lia | lia].
Qed.

Lemma swipe_there_and_back_witness :
  shows_only 0 (handleSwipe 200 300 (handleSwipe 300 200 three_media)).
Proof.
  destruct three_media_ready as (Hnd & Hlen & Hshow).
  exact (proj1 (swipe_there_and_back three_media 0 300 200 200 300
                  Hnd Hlen Hshow ltac:(lia) ltac:(lia))).
Defined.

(** [updateMedia] shows the media whose id is the decimal text of the
    variant's featured media and hides every other item; when no media item
    of the gallery has that id, every item ends hidden and none is active. *)
Theorem updateMedia_shows_featured (p : Product) (g : Gallery) (variantId media : Z) :
  find (λ v, variant_id v =? variantId) (variants p) ≫= featured_media = Some media →
  ∃ g', updateMedia variantId (Some p) (Some g) = (Some g', Returns)
    ∧ mediaIds g' = mediaIds g
    ∧ (∀ item, item ∈ mediaItems g' →
         media_active item = bool_decide (media_id item = pretty media)
         ∧ media_hidden item = negb (media_active item))
    ∧ (pretty media ∉ mediaIds g →
       ∀ item, item ∈ mediaItems g' →
         media_active item = false ∧ media_hidden item = true).
Proof.
  intros Hfind. exists (switchMedia (pretty media) g). unfold updateMedia.
  rewrite Hfind. split_and!; [done | apply mediaIds_switchMedia | |].
  - intros item' [j Hj]%list_elem_of_lookup_1.
    apply switchMedia_lookup in Hj as (item & _ & -> & -> & ->). done.
  - intros Hnot item' [j Hj]%list_elem_of_lookup_1.
    apply switchMedia_lookup in Hj as (item & Hitem & _ & -> & ->).
    rewrite bool_decide_false; [done |]. intros E. apply Hnot. rewrite <- E.
    unfold mediaIds. apply list_elem_of_fmap. exists item.
    split; [done | by eapply list_elem_of_lookup_2].
Qed.

Lemma updateMedia_shows_featured_witness :
  ∃ g', updateMedia 103 (Some Samples.shirt) (Some three_media) = (Some g', Returns)
        ∧ mediaIds g' = ["11"; "12"; "13"].
Proof.
  destruct (updateMedia_shows_featured Samples.shirt three_media 103 12 eq_refl)
    as (g' & H1 & H2 & _).
  exists g'. exact (conj H1 H2).
Defined.

End ProductGalleryFacts.

(** ** Availability of the option buttons *)

Module OptionAvailabilityFacts.
Import ProductForm OptionAvailability.






End OptionAvailabilityFacts.

(** ** URLs written by the scripts *)

Module UrlFacts.
Import URLSearchParamsFacts.

(** The parameters of a URL whose parameters were just set are the ones
    set. *)
Lemma searchParams_with (u : Url) (l : URLSearchParams.t) :
  searchParams (with_searchParams u l) = l.
Proof.
  unfold searchParams, with_searchParams. simpl.
  pose proof (parse_toString l) as H.
  case_bool_decide as E; simpl; [| done]. by rewrite E in H.
Qed.

Lemma filter_twice (name : string) (l : URLSearchParams.t) :
  filter (λ p, p.1 ≠ name) (filter (λ q, q.1 ≠ name) l)
  = filter (λ p, p.1 ≠ name) l.
Proof.
  induction l as [|q l IH]; [done |].
  rewrite !filter_cons. destruct (decide (q.1 ≠ name)) as [Hq|Hq]; [| done].
  rewrite filter_cons. destruct (decide (q.1 ≠ name)); [| done]. by rewrite IH.
Qed.

Lemma set_others (name value_ : string) (l : URLSearchParams.t) :
  filter (λ p, p.1 ≠ name) (URLSearchParams.set name value_ l)
  = filter (λ p, p.1 ≠ name) l.
Proof.
  induction l as [|p l IH]; cbn [URLSearchParams.set].
  - rewrite filter_cons. by destruct (decide ((name, value_).1 ≠ name)).
  - destruct (URLSearchParams.has_name name p) eqn:Hp.
    + unfold URLSearchParams.has_name in Hp. apply bool_decide_eq_true in Hp.
      rewrite !filter_cons.
      destruct (decide ((name, value_).1 ≠ name)); [done |].
      destruct (decide (p.1 ≠ name)); [done |]. apply filter_twice.
    + unfold URLSearchParams.has_name in Hp. apply bool_decide_eq_false in Hp.
      rewrite !filter_cons. destruct (decide (p.1 ≠ name)); [| done].
      by rewrite IH.
Qed.

Lemma set_absent (name value_ : string) (l : URLSearchParams.t) :
  URLSearchParams.get name l = None →
  URLSearchParams.set name value_ l = l ++ [(name, value_)].
Proof.
  rewrite get_None. induction l as [|p l IH]; intros H; cbn [URLSearchParams.set];
    [done |].
  unfold URLSearchParams.has_name. rewrite bool_decide_false by (apply H; by left).
  simpl. f_equal. apply IH. intros q Hq. apply H. by right.
Qed.

(** What [set] on the parameters of a URL gives: the parameter once, with
    the value; the other parameters as they were, in their order; origin,
    path and fragment untouched. *)
Lemma set_parameter (u : Url) (name value_ : string) :
  let u' := with_searchParams u (URLSearchParams.set name value_ (searchParams u)) in
  URLSearchParams.get name (searchParams u') = Some value_
  ∧ filter (λ p, p.1 = name) (searchParams u') = [(name, value_)]
  ∧ filter (λ p, p.1 ≠ name) (searchParams u')
    = filter (λ p, p.1 ≠ name) (searchParams u)
  ∧ origin u' = origin u ∧ pathname u' = pathname u ∧ fragment u' = fragment u.
Proof.
  intros u'. subst u'. rewrite searchParams_with.
  split_and!; [apply get_set | apply set_once | apply set_others | done..].
Qed.

End UrlFacts.

(** ** An option change that resolves to a variant *)

Module OptionChangeFacts.
Import ProductForm ProductFormFacts UrlFacts.


Lemma updates_product_gallery (variant : option Variant) (sel : list string) (f : Form) :
  product (updates variant sel f) = product f
  ∧ gallery (updates variant sel f) = gallery f.
Proof.
  unfold updates. through_availability.
  destruct f as [p vid groups pc btn sk gal w].
  by destruct variant, vid, pc, btn, sk.
Qed.



(** The handler ends with a [TypeError] in one case only: the section has
    no gallery container and the resolved variant has a featured media. All
    the updates of the form, the button, the labels and the URL have been
    made by then. With a gallery container, or without a resolved variant,
    or for a variant without featured media, it returns. *)
Theorem option_change_throws_without_gallery (f : Form) :
  (onOptionChange f).2 = Throws
  ↔ gallery f = None
    ∧ ∃ p v media,
        product f = Some p
        ∧ getVariantFromOptions (product f) (getSelectedOptions f) = Some v
        ∧ find (λ v', variant_id v' =? variant_id v) (variants p) ≫= featured_media
          = Some media.
Proof.
  unfold onOptionChange. cbv zeta.
  destruct (getVariantFromOptions (product f) (getSelectedOptions f)) as [v|] eqn:Hv.
  - fold (updates (Some v) (getSelectedOptions f) f).
    destruct (updates_product_gallery (Some v) (getSelectedOptions f) f) as [-> ->].
    unfold updateMedia. destruct (product f) as [p|] eqn:Hp.
    + destruct (find _ (variants p) ≫= featured_media) as [media|] eqn:Hm.
      * destruct (gallery f) as [gal|] eqn:Hg; simpl.
        -- split; [done | by intros [? _]].
        -- split; [| done]. intros _. split; [done |]. by exists p, v, media.
      * simpl. split; [done |]. intros [_ (p' & v' & media & [= <-] & [= <-] & Hm')].
        congruence.
    + simpl. split; [done |]. by intros [_ (p' & v' & media & ? & _)].
  - simpl. split; [done |]. by intros [_ (p' & v' & media & _ & ? & _)].
Qed.

(** On the shirt page without gallery container, choosing Blue and M
    updates the form and the URL and then throws. *)
Lemma option_change_without_gallery_container :
  let f := Samples.shirt_form "Blue" "M" in
  let bare := {| product := product f; variantIdInput := variantIdInput f;
                 optionGroups := optionGroups f; priceContainer := priceContainer f;
                 addToCartBtn := addToCartBtn f; skuContainer := skuContainer f;
                 gallery := None; window := window f |} in
  (onOptionChange bare).2 = Throws
  ∧ variantIdInput (onOptionChange bare).1 = Some "103"
  ∧ replaced (window (onOptionChange bare).1) = 1%nat.
Proof. by vm_compute. Qed.

End OptionChangeFacts.

(** ** Sorting and filtering a collection *)

Module SortFilterFacts.
Import Collection URLSearchParamsFacts UrlFacts.

Lemma append_entries_filter (formData : list (string * string)) :
  append_entries formData = filter (λ p, p.2 ≠ "") formData.
Proof.
  unfold append_entries.
  assert (H : ∀ acc,
    foldl (λ params '(key, value_),
             if truthy value_ then URLSearchParams.append key value_ params
             else params) acc formData
    = acc ++ filter (λ p, p.2 ≠ "") formData).
  { induction formData as [|[k v] fd IH]; intros acc; simpl.
    - by rewrite app_nil_r.
    - rewrite IH, filter_cons. unfold truthy. simpl.
      destruct (decide (v ≠ "")) as [Hv|Hv].
      + rewrite bool_decide_false by done. simpl.
        unfold URLSearchParams.append. by rewrite <- app_assoc.
      + rewrite bool_decide_true; [done |]. by destruct (decide (v = "")). }
  by rewrite H.
Qed.

(** Choosing a sort order navigates to the current URL with [sort_by] set
    to the chosen value: the parameter is there once, every other parameter
    of the current URL (filters, page) is kept in its order, and origin, path
    and fragment are those of the current URL. *)
Theorem sort_change_keeps_the_rest (selected : string) (location : Url) :
  ∃ target,
    onSortChange selected location = href target
    ∧ URLSearchParams.get "sort_by" (searchParams target) = Some selected
    ∧ filter (λ p, p.1 = "sort_by") (searchParams target) = [("sort_by", selected)]
    ∧ filter (λ p, p.1 ≠ "sort_by") (searchParams target)
      = filter (λ p, p.1 ≠ "sort_by") (searchParams location)
    ∧ origin target = origin location ∧ pathname target = pathname location
    ∧ fragment target = fragment location.
Proof.
  eexists. split; [reflexivity |]. apply set_parameter.
Qed.

(** A filter submission rebuilds the query from the form alone: when the
    form has no [sort_by] field, the parameters of the new URL are the form's
    entries with a value that is not empty, in the form's order, followed by
    the [sort_by] of the current URL when that is not empty. No other
    parameter of the current URL (earlier filters, the page number) is
    carried over. *)
Theorem filters_rebuild_query (formData : list (string * string)) (location : Url) :
  (∀ p, p ∈ formData → p.1 ≠ "sort_by") →
  let q := URLSearchParams.toString (keep_sort location (append_entries formData)) in
  handleSubmit formData location = pathname location +:+ "?" +:+ q
  ∧ submitForm formData location = pathname location +:+ "?" +:+ q
  ∧ URLSearchParams.parse q
    = filter (λ p, p.2 ≠ "") formData
      ++ match URLSearchParams.get "sort_by" (searchParams location) with
         | Some sortBy => if bool_decide (sortBy = "") then [] else [("sort_by", sortBy)]
         | None => []
         end.
Proof.
  intros Hform q. subst q. rewrite parse_toString. split_and!; [done | done |].
  unfold keep_sort. rewrite append_entries_filter.
  destruct (URLSearchParams.get "sort_by" (searchParams location)) as [sortBy|];
    [| by rewrite app_nil_r].
  unfold truthy. case_bool_decide; simpl; [by rewrite app_nil_r |].
  apply set_absent. apply get_None. intros p Hp.
  apply list_elem_of_filter in Hp as [_ Hp]. by apply Hform.
Qed.

Lemma filters_rebuild_query_witness :
  URLSearchParams.parse
    (URLSearchParams.toString
       (keep_sort (collection_page (Some "filter.p.tag=novo&sort_by=price-ascending&page=3"))
                  (append_entries [("filter.v.availability", "1"); ("filter.v.price.gte", "")])))
  = [("filter.v.availability", "1"); ("sort_by", "price-ascending")].
Proof.
  pose proof (filters_rebuild_query
    [("filter.v.availability", "1"); ("filter.v.price.gte", "")]
    (collection_page (Some "filter.p.tag=novo&sort_by=price-ascending&page=3")))
    as H.
  refine (proj2 (proj2 (H _))).
  intros p [-> | [-> | Hp%elem_of_nil]%elem_of_cons]%elem_of_cons; done.
Defined.

(** On the third page of a filtered collection, a new sort order keeps the
    filter and the page. *)
Lemma sort_change_on_filtered_page :
  onSortChange "price-descending"
    (collection_page (Some "filter.p.tag=novo&sort_by=price-ascending&page=3"))
  = "https://shop.example/collections/all?filter.p.tag=novo&sort_by=price-descending&page=3".
Proof. reflexivity. Qed.

End SortFilterFacts.

(** ** More on the cart drawer *)

Module CartDrawerFlowFacts.
Import CartDrawer CartDrawerFacts.

Section Platform.

Context {Srv : Type}.
Variable respond : Srv → Request → FetchResult * Srv.

(** Whatever the platform answers, [updateItem] returns without rejecting
    and ends with the loading class removed; it leaves the [aria-hidden]
    attribute of the drawer, the class on the body and the header count
    elements as they were, and its first request is a POST to
    [/cart/change.js] with the content type of JSON and a body that has the
    given line key as [id] and the given quantity as [quantity]. *)
Theorem updateItem_always_settles (w : World Srv) (k : option string) (q : Z) :
  let result := updateItem respond k q w in
  result.1 = inr tt
  ∧ loading (drawer result.2) = false
  ∧ aria_hidden (drawer result.2) = aria_hidden (drawer w)
  ∧ body_open result.2 = body_open w
  ∧ headerCounts result.2 = headerCounts w
  ∧ ∃ rest, sent result.2
            = sent w ++ {| url := "/cart/change.js"; method := POST;
                           headers := [("Content-Type", "application/json")];
                           body := Some {| change_id := k; change_quantity := q |} |}
                     :: rest.
Proof.
  intros result. subst result.
  pose proof (updateItem_sends_change respond w k q) as Hsent.
  destruct (respond (server w) (change_request k q)) as [res s1] eqn:H1.
  assert (Hcases : match res with NetworkError => True | Responds r => ok r = false end
                   ∨ ∃ r, res = Responds r ∧ ok r = true).
  { destruct res as [|r]; [by left |]. destruct (ok r) eqn:Hok; [right; by exists r | by left]. }
  destruct Hcases as [Hfail | (r & -> & Hok)].
  - rewrite (updateItem_failed respond w k q res s1 H1 Hfail) in *. simpl.
    by split_and!.
  - rewrite (updateItem_accepted respond w k q r s1 H1 Hok) in *. simpl.
    unfold request_header_counts in *.
    pose proof (refresh_cases respond
                  (record_request (change_request k q) s1 (toggle_loading true w)))
      as (_ & Hb & Hh & _ & Ha & _). cbv zeta in *.
    destruct (refresh respond _) as [res w2]. simpl in *.
    destruct (header_requests respond (seq 0 (length (headerCounts w2))) w2)
      as (Hd & Hb' & Hh' & _). cbv zeta in *.
    rewrite Hd, Hb', Hh', Ha, Hb, Hh. split_and!; try done.
    by rewrite <- Hh.
Qed.

(** The click on the minus button, by the text of the quantity element it
    finds: for a text that reads as the number [n] the first request is a
    POST to [/cart/change.js] whose body has the line key of the button as
    [id] and [n - 1] as [quantity], or 0 when [n] is at most 1; for a text
    that is no number, or without a quantity element, the quantity is 0. The
    quantity asked for is never negative. A click that hits no minus button
    sends nothing and changes nothing. *)
Theorem minus_never_asks_negative (w : World Srv) (b : ButtonHit) :
  let asked q :=
    ∃ rest, sent (onMinusClick respond (Some b) w).2
            = sent w ++ {| url := "/cart/change.js"; method := POST;
                           headers := [("Content-Type", "application/json")];
                           body := Some {| change_id := lineKey b;
                                           change_quantity := q |} |}
                     :: rest in
  (∀ text n, quantityText b = Some text → parseInt text = Some n → exact_number n →
     0 ≤ Z.max 0 (n - 1) ∧ asked (Z.max 0 (n - 1)))
  ∧ (∀ n, quantityText b = Some (pretty n) → exact_number n → asked (Z.max 0 (n - 1)))
  ∧ (∀ text, quantityText b = Some text → parseInt text = None → asked 0)
  ∧ (quantityText b = None → asked 0)
  ∧ onMinusClick respond None w = (inr tt, w).
Proof.
  intros asked.
  assert (Hnum : ∀ text n, quantityText b = Some text → parseInt text = Some n →
                 asked (Z.max 0 (n - 1))).
  { intros text n Htext Hn. subst asked. cbv beta.
    unfold onMinusClick, removeItem, currentQty. rewrite Htext. cbn [mbind option_bind].
    rewrite Hn.
    destruct (Z.eqb_spec n 0) as [-> | Hn0].
    - change (1 <? 1) with false. cbv iota.
      apply (updateItem_sends_change respond w (lineKey b) 0).
    - destruct (1 <? n) eqn:E.
      + apply Z.ltb_lt in E. rewrite Z.max_r by lia.
        apply (updateItem_sends_change respond w (lineKey b) (n - 1)).
      + apply Z.ltb_ge in E. rewrite Z.max_l by lia.
        apply (updateItem_sends_change respond w (lineKey b) 0). }
  split_and!.
  - intros text n Htext Hn _. split; [lia | by apply (Hnum text n)].
  - intros n Htext _. apply (Hnum (pretty n) n Htext). apply NumberFacts.parseInt_pretty.
  - intros text Htext Hnan. subst asked. cbv beta.
    unfold onMinusClick, removeItem, currentQty. rewrite Htext. cbn [mbind option_bind].
    rewrite Hnan. apply (updateItem_sends_change respond w (lineKey b) 0).
  - intros Htext. subst asked. cbv beta.
    unfold onMinusClick, removeItem, currentQty. rewrite Htext.
    apply (updateItem_sends_change respond w (lineKey b) 0).
  - done.
Qed.

(** *** The header counts *)

Lemma header_pending (cart : Cart) (l : list nat) (w : World Srv) :
  (∀ s, ∃ r s', respond s (get_request "/cart.js") = (Responds r, s')
                ∧ json r = Some (JsonOf cart)) →
  let w' := foldl (λ w index, request_header_count respond index w) w l in
  ∃ answers,
    pending w' = pending w ++ answers
    ∧ answers.*1 = l
    ∧ Forall (λ a, ∃ r, a.2 = Responds r ∧ json r = Some (JsonOf cart)) answers.
Proof.
  intros Hcart. revert w. induction l as [|i l IH]; intros w; simpl.
  - exists []. by rewrite app_nil_r.
  - destruct (Hcart (server w)) as (r & s' & Hr & Hj).
    assert (E : pending (request_header_count respond i w)
                = pending w ++ [(i, Responds r)]).
    { unfold request_header_count. by rewrite Hr. }
    destruct (IH (request_header_count respond i w)) as (answers & Hp & Hi & Hall).
    rewrite E in Hp. exists ((i, Responds r) :: answers). split_and!.
    + by rewrite Hp, <- app_assoc.
    + rewrite fmap_cons. by rewrite Hi.
    + constructor; [by exists r | done].
Qed.

Lemma settle_each (cart : Cart) (answers : list (nat * FetchResult)) (w : World Srv) :
  Forall (λ a, ∃ r, a.2 = Responds r ∧ json r = Some (JsonOf cart)) answers →
  let w' := foldl (λ w '(index, res), settle_header_count index res w) w answers in
  length (headerCounts w') = length (headerCounts w)
  ∧ ∀ j el, headerCounts w !! j = Some el →
      headerCounts w' !! j
      = Some (if bool_decide (j ∈ answers.*1)
              then {| hc_textContent := text_content_of (item_count cart);
                      hc_hidden := is_zero (item_count cart) |}
              else el).
Proof.
  revert w. induction answers as [|[i res] answers IH]; intros w Hall; cbn [foldl].
  - split; [done |]. intros j el Hj. rewrite bool_decide_false; [done |].
    apply not_elem_of_nil.
  - rewrite fmap_cons. cbn [fst].
    apply Forall_cons in Hall as [(r & Hres & Hj) Hall]. simpl in Hres. subst res.
    destruct (IH (settle_header_count i (Responds r) w) Hall) as [Hlen Hel].
    assert (E : headerCounts (settle_header_count i (Responds r) w)
                = alter (λ _, {| hc_textContent := text_content_of (item_count cart);
                                 hc_hidden := is_zero (item_count cart) |})
                        i (headerCounts w)).
    { unfold settle_header_count. by rewrite Hj. }
    rewrite E in Hlen, Hel. rewrite length_alter in Hlen. split; [done |].
    intros j el Hjel. destruct (decide (j = i)) as [-> | Hne].
    + rewrite (Hel i {| hc_textContent := text_content_of (item_count cart);
                        hc_hidden := is_zero (item_count cart) |}).
      * rewrite (bool_decide_true (i ∈ i :: answers.*1)) by (by left).
        by destruct (bool_decide _).
      * by rewrite list_lookup_alter_eq, Hjel.
    + rewrite (Hel j el) by (by rewrite list_lookup_alter_ne).
      f_equal. assert (E' : bool_decide (j ∈ i :: answers.*1)
                            = bool_decide (j ∈ answers.*1)); [| by rewrite E'].
      apply bool_decide_ext. rewrite elem_of_cons.
      split; [by intros [? | ?] | by right].
Qed.

Lemma header_counts_settled (cart : Cart) (w : World Srv) :
  pending w = [] →
  (∀ s, ∃ r s', respond s (get_request "/cart.js") = (Responds r, s')
                ∧ json r = Some (JsonOf cart)) →
  let n := length (headerCounts w) in
  let w1 := request_header_counts respond w in
  sent w1 = sent w ++ replicate n (get_request "/cart.js")
  ∧ headerCounts w1 = headerCounts w
  ∧ length (pending w1) = n
  ∧ pending (settle_pending w1) = []
  ∧ headerCounts (settle_pending w1)
    = replicate n {| hc_textContent := text_content_of (item_count cart);
                     hc_hidden := is_zero (item_count cart) |}.
Proof.
  intros Hpending Hcart n w1. subst n w1. unfold request_header_counts.
  destruct (header_requests respond (seq 0 (length (headerCounts w))) w)
    as (_ & _ & Hh & _ & _ & Hsent). cbv zeta in *.
  destruct (header_pending cart (seq 0 (length (headerCounts w))) w Hcart)
    as (answers & Hp & Hidx & Hall). cbv zeta in *.
  rewrite Hpending in Hp. simpl in Hp.
  set (w1 := foldl _ w _) in *.
  rewrite length_seq in Hsent.
  assert (Hlen : length (pending w1) = length (headerCounts w)).
  { rewrite Hp. rewrite <- (length_fmap fst), Hidx. apply length_seq. }
  split_and!; [done | done | done | |].
  - unfold settle_pending.
    assert (Hkeep : ∀ l (w0 : World Srv),
      pending (foldl (λ w '(index, res), settle_header_count index res w) w0 l)
      = pending w0).
    { clear. intros l. induction l as [|[i res] l IH]; intros w0; simpl; [done |].
      rewrite IH. unfold settle_header_count. destruct res as [|r]; [done |].
      by destruct (json r) as [[|]|]. }
    by rewrite Hkeep.
  - unfold settle_pending. rewrite Hp.
    destruct (settle_each cart answers (with_pending [] w1) Hall) as [Hl Hel].
    cbv zeta in *. simpl in Hl, Hel. rewrite Hh in Hl, Hel.
    apply list_eq. intros j.
    destruct (headerCounts w !! j) as [el|] eqn:Hj.
    + rewrite (Hel j el Hj). rewrite Hidx.
      rewrite bool_decide_true.
      * symmetry. apply lookup_replicate. split; [done |].
        by apply lookup_lt_Some in Hj.
      * apply elem_of_seq. apply lookup_lt_Some in Hj. lia.
    + apply lookup_ge_None in Hj.
      rewrite (proj2 (lookup_ge_None _ _)) by (by rewrite Hl).
      symmetry. apply lookup_ge_None. by rewrite length_replicate.
Qed.

(** [updateHeaderCount] sends one [/cart.js] request for every header count
    element and changes no element by itself. On a platform that answers
    [/cart.js] with the same cart, once the answers have been handled every
    header count element shows the item count of that cart and is hidden
    exactly when the count is zero. (A body without item count, or with
    [null] for it, leaves the elements empty and visible.) *)
Theorem header_counts_follow_cart (cart : Cart) (w : World Srv) :
  let snapshot := {| url := "/cart.js"; method := GET; headers := []; body := None |} in
  pending w = [] →
  (∀ s, ∃ r s', respond s snapshot = (Responds r, s') ∧ json r = Some (JsonOf cart)) →
  let n := length (headerCounts w) in
  let w1 := request_header_counts respond w in
  sent w1 = sent w ++ replicate n snapshot
  ∧ headerCounts w1 = headerCounts w
  ∧ length (pending w1) = n
  ∧ pending (settle_pending w1) = []
  ∧ headerCounts (settle_pending w1)
    = replicate n {| hc_textContent :=
                       match item_count cart with
                       | Num count => pretty count
                       | Undefined | Null => ""
                       | OtherValue text _ => text
                       end;
                     hc_hidden :=
                       match item_count cart with Num 0 => true | _ => false end |}.
Proof.
  intros snapshot Hpending Hcart.
  destruct (header_counts_settled cart w Hpending Hcart) as (H1 & H2 & H3 & H4 & H5).
  cbv zeta in *. split_and!; try done.
  rewrite H5. by destruct (item_count cart) as [[]| | |].
Qed.

End Platform.

(** A platform that always answers with an empty cart, and a page with two
    header counts. *)
Lemma header_counts_follow_cart_witness :
  let respond := λ (s : unit) (_ : Request),
    (Responds {| ok := true; text := Some "{}";
                 json := Some (JsonOf {| item_count := Num 0;
                                         total_price := Num 0 |}) |}, s) in
  let w := {| drawer := {| aria_hidden := "true"; loading := false;
                           countEl := None; subtotalEl := None |};
              body_open := false;
              headerCounts := [ {| hc_textContent := "2"; hc_hidden := false |};
                                {| hc_textContent := "2"; hc_hidden := false |} ];
              console := []; sent := []; pending := []; reloads := 0%nat;
              server := tt |} in
  headerCounts (settle_pending (request_header_counts respond w))
  = [ {| hc_textContent := "0"; hc_hidden := true |};
      {| hc_textContent := "0"; hc_hidden := true |} ].
Proof.
  intros respond w.
  pose proof (header_counts_follow_cart respond
                {| item_count := Num 0; total_price := Num 0 |} w eq_refl) as H.
  refine (proj2 (proj2 (proj2 (proj2 (H _))))).
  intros s. by do 2 eexists.
Defined.

(** The minus button next to a quantity of 2, on the sample page: the
    request asks for 1. *)
Lemma minus_never_asks_negative_witness :
  ∃ rest,
    sent (onMinusClick Shop.respond
            (Some {| lineKey := Some "line-1"; quantityText := Some "2" |})
            (Shop.page 9)).2
    = {| url := "/cart/change.js"; method := POST;
         headers := [("Content-Type", "application/json")];
         body := Some {| change_id := Some "line-1"; change_quantity := 1 |} |}
      :: rest.
Proof.
  exact (proj1 (proj2 (minus_never_asks_negative Shop.respond (Shop.page 9)
                         {| lineKey := Some "line-1"; quantityText := Some "2" |}))
           2 eq_refl ltac:(unfold exact_number; lia)).
Defined.

End CartDrawerFlowFacts.

(** ** More on the predictive search *)

Module SearchFlowFacts.
Import SearchModal SearchModalFacts.

Section Component.

Variable translations : option Translations.


Lemma onInput_issued (text : string) (s : State) :
  ∃ s', step translations (Input text) s = Some s'
    ∧ issued s' = issued s
    ∧ debounceTimer s'
      = (if (utf16_length (trim text) <? minChars)%nat then None else Some (trim text))
    ∧ results (view s')
      = (if (utf16_length (trim text) <? minChars)%nat
         then results (clearResults translations (view s))
         else results (view s)).
Proof.
  eexists. split; [reflexivity |]. unfold onInput. cbv zeta. simpl.
  by destruct (utf16_length (trim text) <? minChars)%nat.
Qed.



Lemma long_timer_step (e : Event) (s s' : State) :
  (∀ q, debounceTimer s = Some q → (minChars ≤ utf16_length q)%nat) →
  Forall (λ q, (minChars ≤ utf16_length q)%nat) (issued s) →
  step translations e s = Some s' →
  (∀ q, debounceTimer s' = Some q → (minChars ≤ utf16_length q)%nat)
  ∧ Forall (λ q, (minChars ≤ utf16_length q)%nat) (issued s').
Proof.
  intros Ht Hi Hstep. destruct e as [text| |c ok_|c fragment|c|c| |]; simpl in Hstep.
  - destruct (onInput_issued text s) as (s1 & Hstep1 & Hissued & Htimer & _).
    simpl in Hstep1. rewrite Hstep in Hstep1. injection Hstep1 as <-.
    rewrite Hissued, Htimer. split; [| done].
    destruct (utf16_length (trim text) <? minChars)%nat eqn:E; [done |].
    intros q [= <-]. by apply Nat.ltb_ge in E.
  - destruct (debounceTimer s) as [query|] eqn:Hq; [| done]. injection Hstep as <-.
    simpl. split; [done |]. apply Forall_app. split; [done |].
    constructor; [by apply Ht | constructor].
  - destruct (lookup_request c s) as [r|]; [| done].
    destruct (phase r); try done. by destruct ok_; injection Hstep as <-.
  - destruct (lookup_request c s) as [r|]; [| done].
    destruct (phase r); try done. by injection Hstep as <-.
  - destruct (lookup_request c s) as [r|]; [| done].
    destruct (phase r); try done; by injection Hstep as <-.
  - destruct (lookup_request c s) as [r|]; [| done].
    destruct (phase r); try done. by injection Hstep as <-.
  - by injection Hstep as <-.
  - by injection Hstep as <-.
Qed.

(** No request is ever issued for a query of fewer than three characters,
    and a keystroke never issues a request by itself: after any sequence of
    events, every query requested so far has at least three characters, and
    a further keystroke leaves the list of requests as it is. *)
Theorem requests_only_for_long_queries (markup : string) (events : list Event)
    (s : State) :
  run translations events (initial markup) = Some s →
  Forall (λ q, (minChars ≤ utf16_length q)%nat) (issued s)
  ∧ ∀ text, ∃ s', step translations (Input text) s = Some s' ∧ issued s' = issued s.
Proof.
  intros Hrun. split.
  - assert (H : ∀ s0,
      (∀ q, debounceTimer s0 = Some q → (minChars ≤ utf16_length q)%nat) →
      Forall (λ q, (minChars ≤ utf16_length q)%nat) (issued s0) →
      run translations events s0 = Some s →
      Forall (λ q, (minChars ≤ utf16_length q)%nat) (issued s)).
    { clear Hrun. induction events as [|e events IH]; intros s0 Ht Hi Hrun;
        simpl in Hrun.
      - by injection Hrun as <-.
      - destruct (step translations e s0) as [s1|] eqn:Hstep; [| done].
        destruct (long_timer_step e s0 s1 Ht Hi Hstep) as [Ht1 Hi1].
        by apply (IH s1). }
    apply (H (initial markup)); [done | constructor | done].
  - intros text. destruct (onInput_issued text s) as (s' & Hstep & Hissued & _).
    by exists s'.
Qed.


End Component.


Lemma requests_only_for_long_queries_witness :
  ∃ s, run None SearchRun.typing (initial "") = Some s
       ∧ Forall (λ q, (minChars ≤ utf16_length q)%nat) (issued s).
Proof.
  eexists. split; [reflexivity |].
  exact (proj1 (requests_only_for_long_queries None "" SearchRun.typing _ eq_refl)).
Defined.


End SearchFlowFacts.

(** ** Adding to the cart *)

Module AddToCartFacts.
Import AddToCart.



Lemma submit_without_button (translations : option Texts) (p : Page) :
  addToCartBtn p = None → onSubmit_start translations p = None.
Proof. intros H. unfold onSubmit_start. by rewrite H. Qed.

End AddToCartFacts.

(** ** The homepage effects *)

Module HomepageFacts.
Import Homepage.

(** *** Reveal on scroll *)

Lemma reveal_lookup (els : list Animated) (entry : nat * bool) (j : nat) :
  reveal els entry !! j
  = (λ el, if bool_decide (j = entry.1) && entry.2
           then {| is_visible := true; observed := false |} else el) <$> els !! j.
Proof.
  destruct entry as [target isIntersecting]. unfold reveal. simpl.
  destruct isIntersecting.
  - destruct (decide (j = target)) as [-> | Hne].
    + rewrite list_lookup_alter_eq, bool_decide_true by done. by destruct (els !! target).
    + rewrite list_lookup_alter_ne by done. rewrite bool_decide_false by done.
      by destruct (els !! j).
  - rewrite andb_false_r. by destruct (els !! j).
Qed.

(** The reveal is one-way and self-unsubscribing: the observer callback
    never removes [is-visible] and never starts observing an element again;
    after it has run, the target of every intersecting entry is visible and
    no longer observed; and an element no entry names is left as it was. *)
Theorem reveal_is_one_way (entries : list (nat * bool)) (els : list Animated) :
  let els' := onIntersect entries els in
  length els' = length els
  ∧ (∀ j el, els !! j = Some el →
       ∃ el', els' !! j = Some el'
         ∧ (is_visible el = true → is_visible el' = true)
         ∧ (observed el = false → observed el' = false)
         ∧ ((j, true) ∈ entries → is_visible el' = true ∧ observed el' = false)
         ∧ ((j, true) ∉ entries → el' = el)).
Proof.
  unfold onIntersect. revert els.
  induction entries as [|entry entries IH]; intros els; simpl.
  - split; [done |]. intros j el Hj. exists el. split_and!; try done.
    intros H. by apply elem_of_nil in H.
  - destruct (IH (reveal els entry)) as [Hlen Hel]. split.
    + rewrite Hlen. destruct entry as [t []]; simpl; [apply length_alter | done].
    + intros j el Hj.
      pose proof (reveal_lookup els entry j) as Hr. rewrite Hj in Hr. simpl in Hr.
      destruct (Hel j _ Hr) as (el' & Hj' & Hvis & Hobs & Hin & Hout).
      exists el'. split; [done |].
      destruct (bool_decide (j = entry.1) && entry.2) eqn:Ehit.
      * apply andb_true_iff in Ehit as [Ej Et]. apply bool_decide_eq_true in Ej.
        destruct entry as [t b]. simpl in *. subst t b.
        split_and!.
        -- intros _. by apply Hvis.
        -- intros _. by apply Hobs.
        -- intros _. split; [by apply Hvis | by apply Hobs].
        -- intros Hnot. exfalso. apply Hnot. by left.
      * assert (Hne : entry ≠ (j, true)).
        { intros ->. simpl in Ehit. by rewrite bool_decide_true in Ehit. }
        split_and!; [done | done | |].
        -- intros [E | Hin']%elem_of_cons; [by symmetry in E | by apply Hin].
        -- intros Hnot. apply Hout. intros Hin'. apply Hnot. by right.
Qed.

Lemma reveal_is_one_way_witness :
  let els := [ {| is_visible := false; observed := true |};
               {| is_visible := false; observed := true |} ] in
  ∃ el', onIntersect [(1%nat, false); (0%nat, true)] els !! 0%nat = Some el'
         ∧ is_visible el' = true ∧ observed el' = false.
Proof.
  intros els.
  destruct (proj2 (reveal_is_one_way [(1%nat, false); (0%nat, true)] els) 0%nat _ eq_refl)
    as (el' & H1 & _ & _ & H2 & _).
  exists el'. split; [exact H1 |]. apply H2. right. left.
Defined.

(** *** Parallax *)

Lemma tick_keeps (e : Tick) (s s' : Parallax) :
  frames s = (if ticking s then 1%nat else 0%nat) →
  tick e s = Some s' →
  frames s' = (if ticking s' then 1%nat else 0%nat)
  ∧ updates s' = (if is_frame e then S (updates s) else updates s).
Proof.
  intros Hinv Hstep. destruct e; simpl in Hstep.
  - injection Hstep as <-. unfold onScroll.
    destruct (ticking s) eqn:Ht; simpl; [by rewrite Ht | by rewrite Hinv].
  - destruct (frames s) as [|n] eqn:Hf; [done |]. injection Hstep as <-. simpl.
    destruct (ticking s); [| done]. split; [| done]. by injection Hinv.
Qed.

(** Scroll events are coalesced: however the scroll events and the
    animation frames interleave after [initParallax], at most one frame is
    requested at any time (one exactly while [ticking] is set), and
    [updateParallax] has run once at the start and once per frame. *)
Theorem parallax_is_throttled (events : list Tick) (s : Parallax) :
  ticks events started = Some s →
  frames s = (if ticking s then 1%nat else 0%nat)
  ∧ (frames s ≤ 1)%nat
  ∧ updates s = S (length (filter (λ e, is_frame e = true) events)).
Proof.
  assert (H : ∀ s0, frames s0 = (if ticking s0 then 1%nat else 0%nat) →
    ticks events s0 = Some s →
    frames s = (if ticking s then 1%nat else 0%nat)
    ∧ updates s
      = (updates s0 + length (filter (λ e, is_frame e = true) events))%nat).
  { induction events as [|e events IH]; intros s0 Hinv Hrun; simpl in Hrun.
    - injection Hrun as <-. split; [done |]. simpl. lia.
    - destruct (tick e s0) as [s1|] eqn:Hstep; [| done].
      destruct (tick_keeps e s0 s1 Hinv Hstep) as [Hinv1 Hup].
      destruct (IH s1 Hinv1 Hrun) as [Hf Hu]. split; [done |].
      rewrite Hu, Hup.
      destruct e; [rewrite filter_cons_False by done
                  | rewrite filter_cons_True by done]; simpl; lia. }
  intros Hrun. destruct (H started eq_refl Hrun) as [Hf Hu].
  split_and!; [done | rewrite Hf; destruct (ticking s); lia | by rewrite Hu].
Qed.

Lemma parallax_is_throttled_witness :
  ∃ s, ticks [Scroll; Scroll; Scroll; Frame; Scroll] started = Some s
       ∧ frames s = 1%nat ∧ updates s = 2%nat.
Proof.
  eexists. split; [reflexivity |].
  destruct (parallax_is_throttled [Scroll; Scroll; Scroll; Frame; Scroll] _ eq_refl)
    as (H1 & _ & H2).
  exact (conj H1 H2).
Defined.

End HomepageFacts.

(** ** The video backgrounds *)

Module VideoFacts.
Import Homepage.

Lemma strip_prefix_Some (pre s rest : string) :
  strip_prefix pre s = Some rest ↔ s = pre +:+ rest.
Proof.
  revert s. induction pre as [|a pre IH]; intros s; simpl.
  - split; [by intros [= ->] | by intros ->].
  - destruct s as [|b s]; [done |].
    destruct (bool_decide_reflect (a = b)) as [-> | Hne].
    + rewrite IH. split; [by intros -> | by intros [= ->]].
    + split; [done | intros [= -> _]; done].
Qed.

Lemma take_until_split (stop : ascii) (s : string) :
  ∃ after, s = take_until stop s +:+ after
           ∧ (after = "" ∨ ∃ r, after = String stop r).
Proof.
  induction s as [|c s (after & Hs & Hafter)]; simpl.
  - exists "". by split; [| left].
  - destruct (bool_decide_reflect (c = stop)) as [-> | Hne].
    + exists (String stop s). split; [done | right; by exists s].
    + exists after. split; [exact (f_equal (String c) Hs) | done].
Qed.

Lemma take_until_free (stop : ascii) (s a b : string) :
  take_until stop s ≠ a +:+ String stop b.
Proof.
  revert a. induction s as [|c s IH]; intros a; simpl.
  - by destruct a.
  - destruct (bool_decide_reflect (c = stop)) as [-> | Hne]; [by destruct a |].
    destruct a as [|c' a]; simpl.
    + intros [= -> _]. done.
    + intros [= _ H]. by apply IH in H.
Qed.

Lemma take_until_app (stop : ascii) (id after : string) :
  (∀ a b, id ≠ a +:+ String stop b) →
  after = "" ∨ (∃ r, after = String stop r) →
  take_until stop (id +:+ after) = id.
Proof.
  intros Hfree Hafter. induction id as [|c id IH]; simpl.
  - destruct Hafter as [-> | [r ->]]; simpl; [done |].
    by rewrite bool_decide_true.
  - destruct (bool_decide_reflect (c = stop)) as [-> | Hne].
    + by destruct (Hfree "" id).
    + f_equal. apply IH. intros a b ->. by destruct (Hfree (String c a) b).
Qed.

(** A capture is a match: the head matches somewhere in the text, and the
    id is what follows it up to the stop byte or the end. *)
Lemma capture_Some (strip : string → option string) (stop : ascii) (s id : string) :
  capture strip stop s = Some id →
  id ≠ ""
  ∧ (∀ a b, id ≠ a +:+ String stop b)
  ∧ ∃ before rest after,
      s = before +:+ rest
      ∧ strip rest = Some (id +:+ after)
      ∧ (after = "" ∨ ∃ r, after = String stop r).
Proof.
  assert (Hhere : ∀ s0 r,
    strip s0 = Some r → take_until stop r ≠ "" →
    take_until stop r ≠ ""
    ∧ (∀ a b, take_until stop r ≠ a +:+ String stop b)
    ∧ ∃ before rest after,
        s0 = before +:+ rest
        ∧ strip rest = Some (take_until stop r +:+ after)
        ∧ (after = "" ∨ ∃ r', after = String stop r')).
  { intros s0 r Hstrip Hne. split; [done |]. split; [apply take_until_free |].
    destruct (take_until_split stop r) as (after & Hr & Hafter).
    exists "", s0, after. split; [done |]. by rewrite <- Hr. }
  induction s as [|c s IH]; simpl.
  - destruct (strip "") as [r|] eqn:Hstrip; [| done].
    destruct (bool_decide_reflect (take_until stop r = "")) as [He | Hne]; [done |].
    intros [= <-]. by apply Hhere.
  - destruct (strip (String c s)) as [r|] eqn:Hstrip.
    + destruct (bool_decide_reflect (take_until stop r = "")) as [He | Hne].
      * intros (Hid & Hfree & before & rest & after & -> & Hrest)%IH.
        split; [done |]. split; [done |].
        by exists (String c before), rest, after.
      * intros [= <-]. by apply Hhere.
    + intros (Hid & Hfree & before & rest & after & -> & Hrest)%IH.
      split; [done |]. split; [done |].
      by exists (String c before), rest, after.
Qed.

Lemma capture_here (strip : string → option string) (stop : ascii)
    (s id after : string) :
  strip s = Some (id +:+ after) → id ≠ "" →
  (∀ a b, id ≠ a +:+ String stop b) →
  after = "" ∨ (∃ r, after = String stop r) →
  capture strip stop s = Some id.
Proof.
  intros Hstrip Hid Hfree Hafter.
  destruct s as [|c s]; cbn [capture]; rewrite Hstrip, take_until_app by done;
    by rewrite bool_decide_false.
Qed.

Lemma capture_skip (strip : string → option string) (stop c : ascii) (s : string) :
  strip (String c s) = None →
  capture strip stop (String c s) = capture strip stop s.
Proof. intros Hstrip. cbn [capture]. by rewrite Hstrip. Qed.

Lemma strip_watch_Some (s rest : string) :
  strip_watch s = Some rest → s = "?v=" +:+ rest ∨ s = "&v=" +:+ rest.
Proof.
  destruct s as [|c s]; [done |]. unfold strip_watch.
  destruct (bool_decide_reflect (c = "?"%char)) as [-> | H1]; cbn [orb].
  - intros ->%strip_prefix_Some. by left.
  - destruct (bool_decide_reflect (c = "&"%char)) as [-> | H2]; [| done].
    intros ->%strip_prefix_Some. by right.
Qed.

(** The id read from a video URL is a piece of that URL, never empty: for
    a URL that mentions [youtube.com], the text after a [?v=] or [&v=] up to
    the next [&] or the end; for another URL that mentions [youtu.be], the
    text after [youtu.be/] up to the next [?] or the end. A URL that
    mentions [youtube.com] never has its [youtu.be/] part read. *)
Theorem video_id_is_delimited (videoUrl id : string) :
  videoId videoUrl = Some id →
  id ≠ ""
  ∧ ∃ before head stop after,
      videoUrl = before +:+ head +:+ id +:+ after
      ∧ ((includes "youtube.com" videoUrl = true
          ∧ (head = "?v=" ∨ head = "&v=") ∧ stop = "&"%char)
         ∨ (includes "youtube.com" videoUrl = false
            ∧ includes "youtu.be" videoUrl = true
            ∧ head = "youtu.be/" ∧ stop = "?"%char))
      ∧ (∀ a b, id ≠ a +:+ String stop b)
      ∧ (after = "" ∨ ∃ r, after = String stop r).
Proof.
  unfold videoId. destruct (includes "youtube.com" videoUrl) eqn:Hlong.
  - intros (Hid & Hfree & before & rest & after & -> & Hstrip & Hafter)%capture_Some.
    split; [done |].
    apply strip_watch_Some in Hstrip as [-> | ->].
    + exists before, "?v=", "&"%char, after. split_and!; [done | | done | done].
      left. split_and!; [done | by left | done].
    + exists before, "&v=", "&"%char, after. split_and!; [done | | done | done].
      left. split_and!; [done | by right | done].
  - destruct (includes "youtu.be" videoUrl) eqn:Hshort; [| done].
    intros (Hid & Hfree & before & rest & after & -> & Hstrip & Hafter)%capture_Some.
    split; [done |].
    unfold strip_short in Hstrip. apply strip_prefix_Some in Hstrip as ->.
    exists before, "youtu.be/", "?"%char, after. split_and!; [done | | done | done].
    by right.
Qed.

Lemma video_id_is_delimited_witness :
  videoId "https://youtu.be/dQw4w9WgXcQ?t=42" = Some "dQw4w9WgXcQ"
  ∧ "dQw4w9WgXcQ" ≠ "".
Proof.
  split; [reflexivity |].
  exact (proj1 (video_id_is_delimited "https://youtu.be/dQw4w9WgXcQ?t=42"
                  "dQw4w9WgXcQ" eq_refl)).
Defined.

(** The usual forms of a video link give back the id they were built
    from, and the iframe embeds that id, also as the playlist: a watch link
    with the id in [v], first in the query, with or without more parameters,
    and a short link with or without a query. (The id is not empty, has no
    [&], respectively no [?], and the short link does not mention
    [youtube.com].) *)
Theorem video_links_give_their_id (id after : string) (stop : ascii) :
  id ≠ "" →
  (∀ a b, id ≠ a +:+ String stop b) →
  after = "" ∨ (∃ r, after = String stop r) →
  let embed :=
    Some ("https://www.youtube.com/embed/" +:+ id
          +:+ "?autoplay=1&mute=1&loop=1&playlist=" +:+ id
          +:+ "&controls=0&showinfo=0&rel=0&modestbranding=1&playsinline=1") in
  (stop = "&"%char →
     iframe_src (Some ("https://www.youtube.com/watch?v=" +:+ id +:+ after)) = embed)
  ∧ (stop = "?"%char → includes "youtube.com" (id +:+ after) = false →
     iframe_src (Some ("https://youtu.be/" +:+ id +:+ after)) = embed).
Proof.
  intros Hid Hfree Hafter embed. split.
  - intros ->. unfold iframe_src.
    replace (truthy _) with true by done.
    assert (Hv : videoId ("https://www.youtube.com/watch?v=" +:+ id +:+ after) = Some id).
    { unfold videoId. replace (includes "youtube.com" _) with true by reflexivity.
      set (tail := id +:+ after). cbv [String.append].
      repeat (rewrite capture_skip by reflexivity).
      by apply capture_here with after. }
    by rewrite Hv.
  - intros -> Hplain. unfold iframe_src.
    replace (truthy _) with true by done.
    assert (Hv : videoId ("https://youtu.be/" +:+ id +:+ after) = Some id).
    { unfold videoId.
      replace (includes "youtube.com" ("https://youtu.be/" +:+ id +:+ after))
        with (includes "youtube.com" (id +:+ after)) by reflexivity.
      rewrite Hplain.
      replace (includes "youtu.be" _) with true by reflexivity.
      set (tail := id +:+ after). cbv [String.append].
      repeat (rewrite capture_skip by reflexivity).
      by apply capture_here with after. }
    by rewrite Hv.
Qed.

Lemma video_links_give_their_id_witness :
  iframe_src (Some "https://www.youtube.com/watch?v=dQw4w9WgXcQ&t=42")
  = Some ("https://www.youtube.com/embed/dQw4w9WgXcQ"
          +:+ "?autoplay=1&mute=1&loop=1&playlist=dQw4w9WgXcQ"
          +:+ "&controls=0&showinfo=0&rel=0&modestbranding=1&playsinline=1").
Proof.
  refine (proj1 (video_links_give_their_id "dQw4w9WgXcQ" "&t=42" "&"%char _ _ _) eq_refl).
  - done.
  - intros a b H. revert H. apply (take_until_free "&"%char "dQw4w9WgXcQ").
  - right. by exists "t=42".
Defined.

(** A link that mentions [youtube.com] without a [v] parameter gets no
    iframe, whatever else it holds; an embed link is one. *)
Lemma embed_link_gets_no_iframe :
  iframe_src (Some "https://www.youtube.com/embed/dQw4w9WgXcQ") = None
  ∧ iframe_src (Some "") = None ∧ iframe_src None = None.
Proof. by vm_compute. Qed.

End VideoFacts.
